(** * Web3 Crypto Streaming Service: the native crypto module

    A shallow embedding of [src/native/crypto/main.cpp] (the N-API binding:
    [GetModuleInfo], [Initialize]) together with the cryptographic core the
    binding forwards to ([AesEncrypt], [AesDecrypt], [Sha256Hash]), whose
    bodies are only declared in [main.cpp]. *)

From Stdlib Require Import ZArith List Lia Bool Ascii String.
From stdpp Require Import gmap strings list fin_maps.

Open Scope string_scope.
Open Scope list_scope.
Open Scope Z_scope.

(* ===================================================================== *)
(** ** The N-API object model used by [main.cpp]                          *)
(* ===================================================================== *)

(** JavaScript objects live in a store and are handled by reference: a
    [Napi::Object] is a handle, two handles to the same location alias.
    The store holds ordinary objects: own data properties keyed by
    strings, each writable or read-only; own accessor properties, with or
    without a setter; the extensible flag ([Object.preventExtensions],
    [Object.seal] and [Object.freeze] clear it); a prototype link. Proxies
    and other exotic objects, symbol keys, and exceptions thrown by
    caller code are outside the model. *)
Module Napi.

Definition loc := positive.

(** The four native callbacks [main.cpp] declares. *)
Inductive Callback : Type :=
| AesEncrypt
| AesDecrypt
| Sha256Hash
| GetModuleInfo.

(** [Napi::Value]. *)
Inductive Value : Type :=
| Undefined
| Null
| Num (n : Z)
| Str (s : string)
| Ref (l : loc).

(** The setter of an accessor property is code of the caller. Its effect
    on the store is modelled as a list of property writes: the target is
    the receiver ([None]) or a given object, the value written is the
    value being assigned ([None]) or a given one. *)
Record Write : Type := MkWrite {
  w_target : option loc;
  w_key : string;
  w_value : option Value
}.

Definition Setter : Type := list Write.

(** A stored object. [props] are its own data properties and [readonly]
    the names of those that are not writable; [accessors] are its own
    accessor properties, [Some None] for one without a setter;
    [callable] is the native callback of a function object made by
    [Napi::Function::New]; [proto] is the prototype, [None] when it is the
    realm's untouched built-in prototype, which defines none of the names
    [main.cpp] writes. *)
Record Obj : Type := MkObj {
  props : gmap string Value;
  callable : option Callback;
  extensible : bool;
  readonly : gset string;
  accessors : gmap string (option Setter);
  proto : option loc
}.

(** An ordinary extensible object with writable data properties only, as
    an object literal or [Napi::Object::New] makes it. *)
Definition mkObj (p : gmap string Value) (c : option Callback) : Obj :=
  MkObj p c true ∅ ∅ None.

Abbreviation Heap := (gmap loc Obj).

(** [Napi::Env]: the handle of the running environment. *)
Record Env : Type := mkEnv { env_id : nat }.

(** [Napi::CallbackInfo]. *)
Record CallbackInfo : Type := mkInfo {
  info_env : Env;
  info_this : Value;
  info_args : list Value
}.

(** Computations that read and write the object store. *)
Definition M (A : Type) : Type := Heap -> A * Heap.

Definition ret {A : Type} (a : A) : M A := fun h => (a, h).

Definition bind {A B : Type} (m : M A) (k : A -> M B) : M B :=
  fun h => let (a, h') := m h in k a h'.

Definition alloc (o : Obj) : M loc :=
  fun h => let l := fresh (dom h) in (l, <[l := o]> h).

(** [info.Env()] *)
Definition CallbackInfo_Env (info : CallbackInfo) : Env := info_env info.

(** [Napi::Object::New(env)]: a fresh object without properties. *)
Definition Object_New (env : Env) : M loc :=
  alloc (mkObj ∅ None).

(** The function object [Napi::Function::New] makes for a callback given
    without a name: own properties length, name, arguments and caller
    (read-only) and prototype. *)
Definition function_object (cb : Callback) (lp : loc) : Obj :=
  MkObj (<["prototype" := Ref lp]>
         (<["caller" := Null]>
         (<["arguments" := Null]>
         (<["name" := Str ""]>
         (<["length" := Num 0]> ∅)))))
        (Some cb) true
        {[ "length"; "name"; "arguments"; "caller" ]} ∅ None.

(** The object behind the prototype property of a new function. *)
Definition prototype_object (lf : loc) : Obj :=
  mkObj (<["constructor" := Ref lf]> ∅) None.

(** [Napi::Function::New(env, cb)]: a fresh function object and its
    prototype object. *)
Definition Function_New (env : Env) (cb : Callback) : M Value :=
  fun h =>
    let lf := fresh (dom h) in
    let lp := fresh ({[ lf ]} ∪ dom h) in
    (Ref lf, <[lp := prototype_object lf]> (<[lf := function_object cb lp]> h)).

(** [Napi::String::New(env, s)]: strings are primitives, nothing is
    allocated. *)
Definition String_New (env : Env) (s : string) : string := s.

(** Writes one own data property of a stored object. *)
Definition set_prop (key : string) (v : Value) (o : Obj) : Obj :=
  MkObj (<[key := v]> (props o)) (callable o) (extensible o) (readonly o)
        (accessors o) (proto o).

Definition raw_store (l : loc) (key : string) (v : Value) (h : Heap) : Heap :=
  alter (set_prop key v) l h.

(** Runs a setter on receiver [this] with the assigned value [v]. *)
Definition run_setter (s : Setter) (this : loc) (v : Value) (h : Heap) : Heap :=
  fold_left (fun h' w => raw_store (default this (w_target w)) (w_key w)
                                   (default v (w_value w)) h')
            s h.

(** What the JavaScript [[Set]] operation does with an assignment. *)
Inductive SetOutcome : Type :=
| Stores
| Ignored
| Runs (s : Setter).

(** The part of [[Set]] that walks the prototype chain, from prototype
    [p] up, when the receiver has no own property [key]: an inherited
    setter runs, an inherited read-only property or setter-less accessor
    blocks the assignment, anything else lets the receiver get the
    property. [fuel] bounds the walk by the number of stored objects. *)
Fixpoint inherited_outcome (fuel : nat) (h : Heap) (p : option loc)
    (key : string) : SetOutcome :=
  match p with
  | None => Stores
  | Some l =>
      match fuel with
      | O => Stores
      | S fuel' =>
          match h !! l with
          | None => Stores
          | Some o =>
              match accessors o !! key with
              | Some (Some s) => Runs s
              | Some None => Ignored
              | None =>
                  match props o !! key with
                  | Some _ =>
                      if bool_decide (key ∈ readonly o) then Ignored
                      else Stores
                  | None => inherited_outcome fuel' h (proto o) key
                  end
              end
          end
      end
  end.

(** [[Set]] of [key] on the stored object [o]: an own accessor runs its
    setter or, without one, blocks; an own data property is overwritten
    unless read-only; a missing property is looked for on the prototype
    chain and then created on [o] if [o] is extensible. *)
Definition set_outcome (h : Heap) (o : Obj) (key : string) : SetOutcome :=
  match accessors o !! key with
  | Some (Some s) => Runs s
  | Some None => Ignored
  | None =>
      match props o !! key with
      | Some _ => if bool_decide (key ∈ readonly o) then Ignored else Stores
      | None =>
          match inherited_outcome (size h) h (proto o) key with
          | Stores => if extensible o then Stores else Ignored
          | Ignored => Ignored
          | Runs s => Runs s
          end
      end
  end.

(** [obj.Set(key, value)]: the JavaScript [[Set]] on the object behind
    the handle. A blocked assignment raises nothing and [main.cpp] does
    not look at what the call returns, so it passes silently. *)
Definition Object_Set (obj : loc) (key : string) (v : Value) : M unit :=
  fun h =>
    match h !! obj with
    | None => (tt, h)
    | Some o =>
        match set_outcome h o key with
        | Stores => (tt, raw_store obj key v h)
        | Ignored => (tt, h)
        | Runs s => (tt, run_setter s obj v h)
        end
    end.

(** The properties of the object behind a handle. *)
Definition props_of (h : Heap) (l : loc) : gmap string Value :=
  match h !! l with
  | Some o => props o
  | None => ∅
  end.

(** [is_function h v cb]: [v] is a handle to a function object of [h]
    whose native callback is [cb]. *)
Definition is_function (h : Heap) (v : Value) (cb : Callback) : Prop :=
  exists l o, v = Ref l /\ h !! l = Some o /\ callable o = Some cb.

(** [accepts o key]: without a modelled prototype, [[Set]] of [key] on [o]
    stores the value: [o] is extensible and [key] is neither an accessor
    nor a read-only property of [o]. *)
Definition accepts (o : Obj) (key : string) : bool :=
  extensible o && bool_decide (accessors o !! key = None)
  && bool_decide (key ∉ readonly o).

(** [no_setter o key]: [key] is not an accessor property of [o] with a
    setter. *)
Definition no_setter (o : Obj) (key : string) : bool :=
  match accessors o !! key with
  | Some (Some _) => false
  | _ => true
  end.

(** [same_attributes o o']: [o'] differs from [o] in the values of data
    properties at most. *)
Definition same_attributes (o o' : Obj) : Prop :=
  callable o' = callable o /\ extensible o' = extensible o /\
  readonly o' = readonly o /\ accessors o' = accessors o /\
  proto o' = proto o.

(** [keeps_objects m]: running [m] removes no object from the store. *)
Definition keeps_objects {A : Type} (m : M A) : Prop :=
  forall (h : Heap) (l : loc), l ∈ dom h -> l ∈ dom (m h).2.

End Napi.

Notation "x <~ m ;; k" := (Napi.bind m (fun x => k))
  (at level 100, m at next level, right associativity).
Notation "m ;;; k" := (Napi.bind m (fun _ => k))
  (at level 100, right associativity).

(* ===================================================================== *)
(** ** [main.cpp]                                                         *)
(* ===================================================================== *)

Module Main.
Import Napi.

(** The predefined macros the preprocessor conditionals of
    [GetModuleInfo] test, and the two its body expands: one value of
    this record is one build of the module. *)
Record Build : Type := mkBuild {
  _WIN32 : bool;
  __APPLE__ : bool;
  __linux__ : bool;
  _M_X64 : bool;
  _M_IX86 : bool;
  __x86_64__ : bool;
  __aarch64__ : bool;
  __DATE__ : string;
  __TIME__ : string
}.

Section WithBuild.
Variable b : Build.

(** The [#ifdef _WIN32 / #elif defined(__APPLE__) / ...] chain. *)
Definition platform_string : string :=
  if _WIN32 b then "win32"
  else if __APPLE__ b then "darwin"
  else if __linux__ b then "linux"
  else "unknown".

(** The [#ifdef _M_X64 / #elif defined(_M_IX86) / ...] chain. *)
Definition arch_string : string :=
  if _M_X64 b then "x64"
  else if _M_IX86 b then "ia32"
  else if __x86_64__ b then "x64"
  else if __aarch64__ b then "arm64"
  else "unknown".

(** The second [#ifdef _WIN32]. *)
Definition visibility_string : string :=
  if _WIN32 b then "dllexport" else "default".

Definition GetModuleInfo (info : CallbackInfo) : M Value :=
  let env := CallbackInfo_Env info in
  result <~ Object_New env ;;
  Object_Set result "name" (Str "web3_crypto_native") ;;;
  Object_Set result "version" (Str "1.0.0") ;;;
  Object_Set result "platform" (Str platform_string) ;;;
  Object_Set result "arch" (Str arch_string) ;;;
  Object_Set result "buildDate" (Str (__DATE__ b)) ;;;
  Object_Set result "buildTime" (Str (__TIME__ b)) ;;;
  Object_Set result "symbolVisibility" (Str visibility_string) ;;;
  ret (Ref result).

End WithBuild.

Definition Initialize (env : Env) (exports : loc) : M loc :=
  f <~ Function_New env Napi.AesEncrypt ;;
  Object_Set exports (String_New env "aesEncrypt") f ;;;
  f <~ Function_New env Napi.AesDecrypt ;;
  Object_Set exports (String_New env "aesDecrypt") f ;;;
  f <~ Function_New env Napi.Sha256Hash ;;
  Object_Set exports (String_New env "sha256") f ;;;
  f <~ Function_New env Napi.GetModuleInfo ;;
  Object_Set exports (String_New env "getModuleInfo") f ;;;
  ret exports.

(** The object [GetModuleInfo] has built when it returns, in closed form
    (used to state what a run leaves in the store). *)
Definition info_object (b : Build) : Obj :=
  mkObj (<["symbolVisibility" := Str (visibility_string b)]>
         (<["buildTime" := Str (__TIME__ b)]>
         (<["buildDate" := Str (__DATE__ b)]>
         (<["arch" := Str (arch_string b)]>
         (<["platform" := Str (platform_string b)]>
         (<["version" := Str "1.0.0"]>
         (<["name" := Str "web3_crypto_native"]> ∅))))))) None.

(** The names [Initialize] writes. *)
Definition entry_points : gset string :=
  {[ "aesEncrypt"; "aesDecrypt"; "sha256"; "getModuleInfo" ]}.

(** [writable_exports o]: an exports object on which each of the four
    assignments of [Initialize] stores its value: extensible, with the
    standard prototype, the four names neither accessors nor read-only. *)
Definition writable_exports (o : Obj) : bool :=
  bool_decide (proto o = None)
  && accepts o "aesEncrypt" && accepts o "aesDecrypt"
  && accepts o "sha256" && accepts o "getModuleInfo".

(** [setter_free o]: an exports object on which none of the four
    assignments of [Initialize] runs code of the caller: standard
    prototype, none of the four names an accessor with a setter. *)
Definition setter_free (o : Obj) : bool :=
  bool_decide (proto o = None)
  && no_setter o "aesEncrypt" && no_setter o "aesDecrypt"
  && no_setter o "sha256" && no_setter o "getModuleInfo".

(** The names [GetModuleInfo] writes. *)
Definition info_fields : gset string :=
  {[ "name"; "version"; "platform"; "arch";
     "buildDate"; "buildTime"; "symbolVisibility" ]}.

End Main.


(* ===================================================================== *)
(** ** The cryptographic core behind the binding                         *)
(* ===================================================================== *)

(** [main.cpp] only declares [AesEncrypt], [AesDecrypt] and [Sha256Hash];
    their bodies are not part of the file. The modules below model them
    from the specification: SHA-256 (one-shot and streaming), the AES
    block cipher, the AES-GCM authenticated mode and the facade that
    validates lengths. Bytes are integers in [0, 256), byte sequences are
    lists. *)

(** Modelled from the spec: the error taxonomy of the core the binding
    forwards to (section 7): InvalidKeyLength, InvalidNonceLength,
    InvalidTagLength, AuthenticationFailed, AlreadyFinalized,
    AllocationFailure. *)
Inductive Error : Type :=
| InvalidKeyLength
| InvalidNonceLength
| InvalidTagLength
| AuthenticationFailed
| AlreadyFinalized
| AllocationFailure.

(** Modelled from the spec: failures are reported as typed results
    (section 7): a value or an error, never both, so an error carries no
    data. *)
Inductive result (A : Type) : Type :=
| Ok (a : A)
| Err (e : Error).
Arguments Ok {A} a.
Arguments Err {A} e.

(** Lower-case hexadecimal encoding of a byte sequence, and its inverse on
    well-formed input; the bytes of an ASCII string. Used to write digests
    and test vectors the way the standards print them. *)
Definition hex_digit (d : Z) : ascii :=
  nth (Z.to_nat d) (list_ascii_of_string "0123456789abcdef") "0"%char.

Fixpoint hex (l : list Z) : string :=
  match l with
  | [] => ""
  | x :: l' =>
      String (hex_digit (x / 16)) (String (hex_digit (x mod 16)) (hex l'))
  end.

Definition hex_value (c : ascii) : Z :=
  let n := Z.of_N (N_of_ascii c) in
  if (48 <=? n) && (n <=? 57) then n - 48
  else if (97 <=? n) && (n <=? 102) then n - 87
  else 0.

Fixpoint unhex (s : string) : list Z :=
  match s with
  | String a (String b s') => (16 * hex_value a + hex_value b) :: unhex s'
  | _ => []
  end.

Definition bytes_of_string (s : string) : list Z :=
  map (fun c => Z.of_N (N_of_ascii c)) (list_ascii_of_string s).

(* ===================================================================== *)
(** *** SHA-256 engine *)
(* ===================================================================== *)

Module Sha256.

(** Modelled from the spec: the body of [Sha256Hash], declared in main.cpp
    and defined outside it. SHA-256 works on 32-bit words; [w32] is the
    wrap-around. *)
Definition w32 (x : Z) : Z := x mod 2 ^ 32.

(** Modelled from the spec: addition of 32-bit words, modulo 2^32. *)
Definition add32 (x y : Z) : Z := w32 (x + y).

(** Modelled from the spec: the complement of a 32-bit word. *)
Definition not32 (x : Z) : Z := Z.lxor x 0xFFFFFFFF.

(** Modelled from the spec: right shift of a word, for the message
    schedule of SHA-256. *)
Definition shr (n x : Z) : Z := Z.shiftr x n.

(** Modelled from the spec: right rotation of a 32-bit word, for the round
    functions of SHA-256. *)
Definition rotr (n x : Z) : Z :=
  Z.lor (Z.shiftr x n) (w32 (Z.shiftl x (32 - n))).

(** Modelled from the spec: the choice function of the SHA-256 round. *)
Definition Ch (x y z : Z) : Z :=
  Z.lxor (Z.land x y) (Z.land (not32 x) z).

(** Modelled from the spec: the majority function of the SHA-256 round. *)
Definition Maj (x y z : Z) : Z :=
  Z.lxor (Z.lxor (Z.land x y) (Z.land x z)) (Z.land y z).

(** Modelled from the spec: the first large sigma of the SHA-256 round
    (rotations 2, 13, 22). *)
Definition Sigma0 (x : Z) : Z :=
  Z.lxor (Z.lxor (rotr 2 x) (rotr 13 x)) (rotr 22 x).

(** Modelled from the spec: the second large sigma of the SHA-256 round
    (rotations 6, 11, 25). *)
Definition Sigma1 (x : Z) : Z :=
  Z.lxor (Z.lxor (rotr 6 x) (rotr 11 x)) (rotr 25 x).

(** Modelled from the spec: the first small sigma of the message schedule
    (rotations 7, 18, shift 3). *)
Definition sigma0 (x : Z) : Z :=
  Z.lxor (Z.lxor (rotr 7 x) (rotr 18 x)) (shr 3 x).

(** Modelled from the spec: the second small sigma of the message schedule
    (rotations 17, 19, shift 10). *)
Definition sigma1 (x : Z) : Z :=
  Z.lxor (Z.lxor (rotr 17 x) (rotr 19 x)) (shr 10 x).

(** Modelled from the spec: the fixed constants of SHA-256 (section 4.2)
    are fractional parts of roots of the first primes; [is_prime] is trial
    division. *)
Definition is_prime (n : nat) : bool :=
  forallb (fun d => negb (n mod d =? 0)%nat) (seq 2 (n - 2)).

(** Modelled from the spec: the first [count] primes (for [count] up to
    64, the last of which is 311). *)
Definition primes (count : nat) : list Z :=
  map Z.of_nat (take count (List.filter is_prime (seq 2 400))).

(** Modelled from the spec: the largest [r] below 2^[steps] with
    [r ^ k <= n], found bit by bit from the top. *)
Fixpoint iroot_loop (k n : Z) (steps : nat) (r : Z) : Z :=
  match steps with
  | O => r
  | S s =>
      let r' := r + 2 ^ Z.of_nat s in
      iroot_loop k n s (if r' ^ k <=? n then r' else r)
  end.

(** Modelled from the spec: the first 32 bits of the fractional part of
    the [k]-th root of [p]. *)
Definition frac_root (k p : Z) : Z :=
  iroot_loop k (p * 2 ^ (32 * k)) 36 0 mod 2 ^ 32.

(** Modelled from the spec: the fixed SHA-256 round constants (section
    4.2), 64 words: the cube roots of the first 64 primes. *)
Definition K : list Z :=
  Eval vm_compute in map (frac_root 3) (primes 64).

(** Modelled from the spec: the fixed SHA-256 initial hash values (section
    4.2), 8 words: the square roots of the first 8 primes. *)
Definition H0 : list Z :=
  Eval vm_compute in map (frac_root 2) (primes 8).

(** Modelled from the spec: four bytes packed big-endian into a word. *)
Definition be32 (b0 b1 b2 b3 : Z) : Z :=
  Z.lor (Z.lor (Z.shiftl b0 24) (Z.shiftl b1 16)) (Z.lor (Z.shiftl b2 8) b3).

(** Modelled from the spec: a word unpacked into four bytes, big-endian. *)
Definition word_bytes (w : Z) : list Z :=
  [ Z.land (Z.shiftr w 24) 0xFF; Z.land (Z.shiftr w 16) 0xFF;
    Z.land (Z.shiftr w 8) 0xFF; Z.land w 0xFF ].

(** Modelled from the spec: the 64-bit big-endian length suffix of the
    padding (section 4.2). *)
Definition be64 (n : Z) : list Z :=
  map (fun i => Z.land (Z.shiftr n (8 * (7 - Z.of_nat i))) 0xFF) (seq 0 8).

(** Modelled from the spec: the first 16 words of the message schedule,
    the 512-bit block read big-endian. *)
Definition block_words (block : list Z) : list Z :=
  map (fun i => be32 (nth (4 * i) block 0) (nth (4 * i + 1) block 0)
                     (nth (4 * i + 2) block 0) (nth (4 * i + 3) block 0))
      (seq 0 16).

(** Modelled from the spec: the message schedule extended by [n] words,
    each from the words 2, 7, 15 and 16 places back. *)
Fixpoint extend (n : nat) (w : list Z) : list Z :=
  match n with
  | O => w
  | S n' =>
      let t := length w in
      let x := add32 (add32 (sigma1 (nth (t - 2) w 0)) (nth (t - 7) w 0))
                     (add32 (sigma0 (nth (t - 15) w 0)) (nth (t - 16) w 0)) in
      extend n' (w ++ [x])
  end.

(** Modelled from the spec: the 64 words of the message schedule of one
    block. *)
Definition schedule (block : list Z) : list Z :=
  extend 48 (block_words block).

(** Modelled from the spec: the eight working variables of the 64 rounds. *)
Record Vars : Type := mkVars {
  va : Z; vb : Z; vc : Z; vd : Z; ve : Z; vf : Z; vg : Z; vh : Z
}.

(** Modelled from the spec: one of the 64 rounds per 512-bit block
    (section 4.2), with its round constant and schedule word. *)
Definition round (v : Vars) (kw : Z * Z) : Vars :=
  let t1 := add32 (add32 (add32 (vh v) (Sigma1 (ve v)))
                         (add32 (Ch (ve v) (vf v) (vg v)) (fst kw))) (snd kw) in
  let t2 := add32 (Sigma0 (va v)) (Maj (va v) (vb v) (vc v)) in
  mkVars (add32 t1 t2) (va v) (vb v) (vc v)
         (add32 (vd v) t1) (ve v) (vf v) (vg v).

(** Modelled from the spec: the working variables start as the running
    state. *)
Definition load (h : list Z) : Vars :=
  mkVars (nth 0 h 0) (nth 1 h 0) (nth 2 h 0) (nth 3 h 0)
         (nth 4 h 0) (nth 5 h 0) (nth 6 h 0) (nth 7 h 0).

(** Modelled from the spec: the compression function of the construction
    (section 4.2): 64 rounds over one 512-bit block, then the running
    state is added in, word by word. *)
Definition compress (h : list Z) (block : list Z) : list Z :=
  let v := fold_left round (combine K (schedule block)) (load h) in
  [ add32 (nth 0 h 0) (va v); add32 (nth 1 h 0) (vb v);
    add32 (nth 2 h 0) (vc v); add32 (nth 3 h 0) (vd v);
    add32 (nth 4 h 0) (ve v); add32 (nth 5 h 0) (vf v);
    add32 (nth 6 h 0) (vg v); add32 (nth 7 h 0) (vh v) ].

(** Modelled from the spec: the 32-byte digest (section 3), the eight
    state words big-endian. *)
Definition digest_bytes (h : list Z) : list Z :=
  concat (map word_bytes h).

(** *** One-shot hashing *)

(** Modelled from the spec: the message is padded with a 1 bit, zero bits,
    and a 64-bit big-endian length suffix to a multiple of 512 bits
    (section 4.2). *)
Definition pad (data : list Z) : list Z :=
  let len := Z.of_nat (length data) in
  data ++ [0x80] ++ replicate (Z.to_nat ((55 - len) mod 64)) 0
       ++ be64 ((8 * len) mod 2 ^ 64).

(** Modelled from the spec: the compression function run over the first
    [n] blocks of [msg], in order. *)
Fixpoint process (n : nat) (h : list Z) (msg : list Z) : list Z :=
  match n with
  | O => h
  | S n' => process n' (compress h (take 64 msg)) (drop 64 msg)
  end.

(** Modelled from the spec: [hashOneShot(data) -> Digest] (section 4.2), a
    pure function: pad, then compress block after block from the initial
    hash values. *)
Definition hashOneShot (data : list Z) : list Z :=
  let msg := pad data in
  digest_bytes (process (length msg / 64) H0 msg).

(** *** Streaming hashing *)

(** Modelled from the spec: the mutable incremental accumulator (section
    3): 512-bit block buffer (here the bytes already in it), 256-bit
    running state, 64-bit length counter; [finalized] records that
    finalize consumed it. *)
Record HashState : Type := mkHashState {
  buffer : list Z;
  state : list Z;
  bitlen : Z;
  finalized : bool
}.

(** Modelled from the spec: [newStream() -> HashState] (section 4.2):
    empty buffer, initial hash values, counter zero. *)
Definition newStream : HashState := mkHashState [] H0 0 false.

(** Modelled from the spec: one byte goes into the block buffer; a full
    buffer is compressed into the running state and emptied, and the
    64-bit counter advances by 512 bits with wrap-around. *)
Definition update_byte (st : HashState) (x : Z) : HashState :=
  let buf := buffer st ++ [x] in
  if (length buf =? 64)%nat
  then mkHashState [] (compress (state st) buf)
                   ((bitlen st + 512) mod 2 ^ 64) (finalized st)
  else mkHashState buf (state st) (bitlen st) (finalized st).

(** Modelled from the spec: [update(state, chunk)] (section 4.2): the
    bytes of the chunk are taken in one by one; a finalized state fails
    with AlreadyFinalized. *)
Definition update (st : HashState) (chunk : list Z) : result HashState :=
  if finalized st then Err AlreadyFinalized
  else Ok (fold_left update_byte chunk st).

(** Modelled from the spec: [finalize(state) -> Digest] (section 4.2):
    pads what is left in the buffer (one block, or two when fewer than 8
    bytes stay free after the 1 bit) and consumes the state; a second call
    fails with AlreadyFinalized. *)
Definition finalize (st : HashState) : result (list Z * HashState) :=
  if finalized st then Err AlreadyFinalized
  else
    let n := length (buffer st) in
    let total := (bitlen st + 8 * Z.of_nat n) mod 2 ^ 64 in
    let h :=
      if (n <? 56)%nat
      then compress (state st)
             (buffer st ++ [0x80] ++ replicate (55 - n) 0 ++ be64 total)
      else compress
             (compress (state st)
                (buffer st ++ [0x80] ++ replicate (63 - n) 0))
             (replicate 56 0 ++ be64 total) in
    Ok (digest_bytes h, mkHashState [] h total true).

(** Modelled from the spec: [update] may be called zero or more times
    (section 4.2): the chunks are fed in order, the first error stops. *)
Fixpoint update_all (st : HashState) (chunks : list (list Z))
  : result HashState :=
  match chunks with
  | [] => Ok st
  | c :: cs =>
      match update st c with
      | Ok st' => update_all st' cs
      | Err e => Err e
      end
  end.

End Sha256.

(* ===================================================================== *)
(** *** AES block cipher core *)
(* ===================================================================== *)

Module Aes.

(** Modelled from the spec: the body of [AesEncrypt] and [AesDecrypt],
    declared in main.cpp and defined outside it. Multiplication by x in
    GF(2^8) modulo x^8 + x^4 + x^3 + x + 1, the field of the AES block
    cipher core (section 4.3). *)
Definition xtime (a : Z) : Z :=
  Z.land (Z.lxor (Z.shiftl a 1) (if Z.testbit a 7 then 0x1B else 0)) 0xFF.

(** Modelled from the spec: multiplication in GF(2^8), shift-and-add over
    the 8 bits of [b]. *)
Fixpoint gmul_loop (n : nat) (a b acc : Z) : Z :=
  match n with
  | O => acc
  | S n' =>
      gmul_loop n' (xtime a) (Z.shiftr b 1)
                (if Z.testbit b 0 then Z.lxor acc a else acc)
  end.

(** Modelled from the spec: multiplication in GF(2^8). *)
Definition gmul (a b : Z) : Z := gmul_loop 8 a b 0.

(** Modelled from the spec: the multiplicative inverse in GF(2^8) (0 for
    0) as the 254th power: the substitution box is evaluated without a
    table indexed by secret bytes (section 4.3). *)
Definition ginv (a : Z) : Z :=
  let a2 := gmul a a in
  let a4 := gmul a2 a2 in
  let a8 := gmul a4 a4 in
  let a16 := gmul a8 a8 in
  let a32 := gmul a16 a16 in
  let a64 := gmul a32 a32 in
  let a128 := gmul a64 a64 in
  gmul a128 (gmul a64 (gmul a32 (gmul a16 (gmul a8 (gmul a4 a2))))).

(** Modelled from the spec: left rotation of a byte, for the affine map of
    the substitution box. *)
Definition rotl8 (x : Z) (n : Z) : Z :=
  Z.land (Z.lor (Z.shiftl x n) (Z.shiftr x (8 - n))) 0xFF.

(** Modelled from the spec: the AES substitution box: inversion followed
    by the affine map. *)
Definition SubByte (a : Z) : Z :=
  let i := ginv a in
  Z.lxor (Z.lxor (Z.lxor (Z.lxor (Z.lxor i (rotl8 i 1)) (rotl8 i 2))
                         (rotl8 i 3)) (rotl8 i 4)) 0x63.

(** Modelled from the spec: the substitution box on each of the 16 bytes
    of the state (byte r + 4c is row r, column c). *)
Definition SubBytes (s : list Z) : list Z := map SubByte s.

(** Modelled from the spec: row r of the state rotated left by r places. *)
Definition ShiftRows (s : list Z) : list Z :=
  map (fun i => let r := (i mod 4)%nat in
                let c := (i / 4)%nat in
                nth (r + 4 * ((c + r) mod 4))%nat s 0)
      (seq 0 16).

(** Modelled from the spec: one column multiplied by the fixed matrix of
    AES. *)
Definition MixColumn (a0 a1 a2 a3 : Z) : list Z :=
  [ Z.lxor (Z.lxor (xtime a0) (Z.lxor (xtime a1) a1)) (Z.lxor a2 a3);
    Z.lxor (Z.lxor a0 (xtime a1)) (Z.lxor (Z.lxor (xtime a2) a2) a3);
    Z.lxor (Z.lxor a0 a1) (Z.lxor (xtime a2) (Z.lxor (xtime a3) a3));
    Z.lxor (Z.lxor (Z.lxor (xtime a0) a0) a1) (Z.lxor a2 (xtime a3)) ].

(** Modelled from the spec: the four columns of the state mixed. *)
Definition MixColumns (s : list Z) : list Z :=
  concat (map (fun c => MixColumn (nth (4 * c) s 0) (nth (4 * c + 1) s 0)
                                  (nth (4 * c + 2) s 0) (nth (4 * c + 3) s 0))
              (seq 0 4)).

(** Modelled from the spec: the 16 bytes of the state added to the 16
    bytes of a round key. *)
Definition AddRoundKey (s k : list Z) : list Z :=
  map (fun i => Z.lxor (nth i s 0) (nth i k 0)) (seq 0 16).

(** Modelled from the spec: [RoundKeys] (section 4.3): the round keys one
    after the other, and the round count, 10, 12 or 14. *)
Record RoundKeys : Type := mkRoundKeys {
  rk_bytes : list Z;
  rk_rounds : nat
}.

(** Modelled from the spec: one step of the key schedule appends word [i];
    [rcon] is the round constant the next multiple of [Nk] will use. *)
Fixpoint expand_loop (fuel : nat) (Nk i : nat) (rcon : Z) (w : list Z)
  : list Z :=
  match fuel with
  | O => w
  | S fuel' =>
      let t0 := nth (4 * (i - 1)) w 0 in
      let t1 := nth (4 * (i - 1) + 1) w 0 in
      let t2 := nth (4 * (i - 1) + 2) w 0 in
      let t3 := nth (4 * (i - 1) + 3) w 0 in
      let '(u, rcon') :=
        if (i mod Nk =? 0)%nat
        then ([ Z.lxor (SubByte t1) rcon; SubByte t2; SubByte t3; SubByte t0 ],
              xtime rcon)
        else if (6 <? Nk)%nat && (i mod Nk =? 4)%nat
        then ([ SubByte t0; SubByte t1; SubByte t2; SubByte t3 ], rcon)
        else ([ t0; t1; t2; t3 ], rcon) in
      let word :=
        map (fun j => Z.lxor (nth (4 * (i - Nk) + j) w 0) (nth j u 0))
            (seq 0 4) in
      expand_loop fuel' Nk (S i) rcon' (w ++ word)
  end.

(** Modelled from the spec: [expandKey(key) -> RoundKeys] (section 4.3):
    key schedule round count 10/12/14 for 128/192/256-bit keys. *)
Definition expandKey (key : list Z) : RoundKeys :=
  let Nk := (length key / 4)%nat in
  let Nr := (Nk + 6)%nat in
  mkRoundKeys (expand_loop (4 * (Nr + 1) - Nk) Nk Nk 1 key) Nr.

(** Modelled from the spec: the round key of round [r]. *)
Definition round_key (rk : RoundKeys) (r : nat) : list Z :=
  take 16 (drop (16 * r) (rk_bytes rk)).

(** Modelled from the spec: [n] full rounds of the cipher, starting with
    round key [r]. *)
Fixpoint rounds (n : nat) (rk : RoundKeys) (r : nat) (s : list Z) : list Z :=
  match n with
  | O => s
  | S n' =>
      rounds n' rk (S r)
             (AddRoundKey (MixColumns (ShiftRows (SubBytes s))) (round_key rk r))
  end.

(** Modelled from the spec: [encryptBlock(RoundKeys, 16-byte block) ->
    16-byte block] (section 4.3): initial key addition, the full rounds,
    and the last round without the column mix. *)
Definition encryptBlock (rk : RoundKeys) (block : list Z) : list Z :=
  let s := AddRoundKey block (round_key rk 0) in
  let s := rounds (rk_rounds rk - 1) rk 1 s in
  AddRoundKey (ShiftRows (SubBytes s)) (round_key rk (rk_rounds rk)).

End Aes.

(* ===================================================================== *)
(** *** Authenticated mode wrapper (AES-GCM) *)
(* ===================================================================== *)

Module Gcm.
Import Aes.

(** Modelled from the spec: the body of [AesEncrypt] and [AesDecrypt],
    declared in main.cpp and defined outside it. A 128-bit block as an
    integer, first byte most significant, missing bytes read as zero. *)
Definition block_of_bytes (l : list Z) : Z :=
  fold_left (fun acc i => Z.lor (Z.shiftl acc 8) (nth i l 0)) (seq 0 16) 0.

(** Modelled from the spec: the 16 bytes of a 128-bit block, most
    significant first. *)
Definition bytes_of_block (x : Z) : list Z :=
  map (fun i => Z.land (Z.shiftr x (8 * (15 - Z.of_nat i))) 0xFF) (seq 0 16).

(** Modelled from the spec: a byte sequence cut into [n] 128-bit blocks,
    the last one zero-padded. *)
Fixpoint blocks (n : nat) (l : list Z) : list Z :=
  match n with
  | O => []
  | S n' => block_of_bytes (take 16 l) :: blocks n' (drop 16 l)
  end.

(** Modelled from the spec: the number of 16-byte blocks that cover a byte
    sequence. *)
Definition block_count (l : list Z) : nat := ((length l + 15) / 16)%nat.

(** Modelled from the spec: the reduction constant of the polynomial hash:
    0xE1 followed by 120 zero bits. *)
Definition R : Z := Z.shiftl 0xE1 120.

(** Modelled from the spec: multiplication in GF(2^128) in the bit order
    of GCM, bit by bit over the 128 bits of [x] from the most significant. *)
Fixpoint gf128_loop (n : nat) (i : Z) (x v z : Z) : Z :=
  match n with
  | O => z
  | S n' =>
      let z' := if Z.testbit x (127 - i) then Z.lxor z v else z in
      let v' := if Z.testbit v 0 then Z.lxor (Z.shiftr v 1) R
                else Z.shiftr v 1 in
      gf128_loop n' (i + 1) x v' z'
  end.

(** Modelled from the spec: multiplication in GF(2^128), the operation of
    the polynomial (GHASH-style) universal hash (section 4.4). *)
Definition gf128_mul (x y : Z) : Z := gf128_loop 128 0 x y 0.

(** Modelled from the spec: the universal hash over (AAD, ciphertext,
    their bit-lengths) (section 4.4), keyed by [h]. *)
Definition ghash (h : Z) (aad ct : list Z) : Z :=
  let lens := Z.lor (Z.shiftl ((8 * Z.of_nat (length aad)) mod 2 ^ 64) 64)
                    ((8 * Z.of_nat (length ct)) mod 2 ^ 64) in
  fold_left (fun y x => gf128_mul (Z.lxor y x) h)
            (blocks (block_count aad) aad ++ blocks (block_count ct) ct ++ [lens])
            0.

(** Modelled from the spec: the nonce-derived counter block (section 4.4):
    the 12-byte nonce, then a 32-bit big-endian counter. *)
Definition counter_block (nonce : list Z) (ctr : Z) : list Z :=
  nonce ++ [ Z.land (Z.shiftr ctr 24) 0xFF; Z.land (Z.shiftr ctr 16) 0xFF;
             Z.land (Z.shiftr ctr 8) 0xFF; Z.land ctr 0xFF ].

(** Modelled from the spec: the per-message keystream by AES-CTR (section
    4.4): [n] blocks, the counter incremented modulo 2^32. *)
Fixpoint keystream (rk : RoundKeys) (nonce : list Z) (ctr : Z) (n : nat)
  : list Z :=
  match n with
  | O => []
  | S n' =>
      encryptBlock rk (counter_block nonce ctr)
        ++ keystream rk nonce ((ctr + 1) mod 2 ^ 32) n'
  end.

(** Modelled from the spec: byte-wise XOR of two sequences, as long as the
    shorter one. *)
Definition xor_bytes (a b : list Z) : list Z := zip_with Z.lxor a b.

(** Modelled from the spec: XOR with the keystream (section 4.4); the same
    operation produces the ciphertext and recovers the plaintext. The
    first counter value, 1, is kept for the tag. *)
Definition ctr_crypt (rk : RoundKeys) (nonce data : list Z) : list Z :=
  xor_bytes data (keystream rk nonce 2 (block_count data)).

(** Modelled from the spec: the authentication tag (section 4.4): the
    universal hash keyed by AES-encrypting an all-zero block, masked with
    the encrypted initial counter block. *)
Definition compute_tag (rk : RoundKeys) (nonce aad ct : list Z) : list Z :=
  let h := block_of_bytes (encryptBlock rk (replicate 16 0)) in
  xor_bytes (encryptBlock rk (counter_block nonce 1))
            (bytes_of_block (ghash h aad ct)).

(** Modelled from the spec: constant-time equality comparison (section
    4.1) that does not short-circuit on the first mismatching byte: the
    differences of all positions are accumulated and tested once. *)
Definition ct_eq (a b : list Z) : bool :=
  (length a =? length b)%nat &&
  (fold_left (fun acc xy => Z.lor acc (Z.lxor (fst xy) (snd xy)))
             (combine a b) 0 =? 0).

(** Modelled from the spec: Encrypt of the authenticated mode wrapper
    (section 4.4): returns [(ciphertext, tag)]. *)
Definition gcm_encrypt (rk : RoundKeys) (nonce pt aad : list Z)
  : list Z * list Z :=
  let ct := ctr_crypt rk nonce pt in
  (ct, compute_tag rk nonce aad ct).

(** Modelled from the spec: Decrypt of the authenticated mode wrapper
    (section 4.4): the expected tag is recomputed from (AAD, received
    ciphertext) and compared in constant time; on mismatch it fails with
    AuthenticationFailed, only on tag match it returns plaintext. *)
Definition gcm_decrypt (rk : RoundKeys) (nonce ct tag aad : list Z)
  : result (list Z) :=
  if ct_eq tag (compute_tag rk nonce aad ct)
  then Ok (ctr_crypt rk nonce ct)
  else Err AuthenticationFailed.

End Gcm.

(* ===================================================================== *)
(** *** Primitive API facade *)
(* ===================================================================== *)

Module Facade.
Import Aes Gcm.

(** Modelled from the spec: the body of [AesEncrypt] and [AesDecrypt],
    declared in main.cpp and defined outside it. Key length is 16, 24 or
    32 bytes (section 3). *)
Definition valid_key_length (n : nat) : bool :=
  (n =? 16)%nat || (n =? 24)%nat || (n =? 32)%nat.

(** Modelled from the spec: [encrypt(key, nonce, plaintext, aad) ->
    (ciphertext, tag)] of the facade (sections 4.5 and 6): lengths are
    validated before dispatch. *)
Definition encrypt (key nonce plaintext aad : list Z)
  : result (list Z * list Z) :=
  if negb (valid_key_length (length key)) then Err InvalidKeyLength
  else if negb (length nonce =? 12)%nat then Err InvalidNonceLength
  else Ok (gcm_encrypt (expandKey key) nonce plaintext aad).

(** Modelled from the spec: [decrypt(key, nonce, ciphertext, tag, aad) ->
    plaintext | AuthenticationFailed] of the facade (sections 4.5 and 6):
    lengths are validated before dispatch. *)
Definition decrypt (key nonce ciphertext tag aad : list Z)
  : result (list Z) :=
  if negb (valid_key_length (length key)) then Err InvalidKeyLength
  else if negb (length nonce =? 12)%nat then Err InvalidNonceLength
  else if negb (length tag =? 16)%nat then Err InvalidTagLength
  else gcm_decrypt (expandKey key) nonce ciphertext tag aad.

(** Modelled from the spec: the body of [Sha256Hash], declared in main.cpp
    and defined outside it. [sha256(data: bytes) -> bytes[32]] of the
    facade (section 6) is the one-shot hash. *)
Definition sha256 (data : list Z) : list Z := Sha256.hashOneShot data.

End Facade.


(* ===================================================================== *)
(** ** Properties of [main.cpp]                                           *)
(* ===================================================================== *)

Module MainFacts.
Import Napi Main.

(** Altering an object that is there is storing the altered object. *)
Lemma alter_present (f : Obj -> Obj) (l : loc) (h : Heap) (o : Obj) :
  h !! l = Some o -> alter f l h = <[l := f o]> h.
Proof.
  intros Hl. apply map_eq. intros i. rewrite lookup_alter, lookup_insert.
  destruct (decide (l = i)) as [<-|]; [rewrite Hl|]; reflexivity.
Qed.

Lemma accepts_set_prop (o : Obj) (key key' : string) (v : Value) :
  accepts (set_prop key v o) key' = accepts o key'.
Proof. reflexivity. Qed.

Lemma accepts_mkObj (p : gmap string Value) (c : option Callback)
    (key : string) :
  accepts (mkObj p c) key = true.
Proof.
  unfold accepts, mkObj; cbn [extensible accessors readonly].
  rewrite lookup_empty, !bool_decide_true; [reflexivity| |reflexivity].
  apply not_elem_of_empty.
Qed.

Lemma inherited_outcome_None (fuel : nat) (h : Heap) (key : string) :
  inherited_outcome fuel h None key = Stores.
Proof. destruct fuel; reflexivity. Qed.

(** Without a modelled prototype and without a setter, [[Set]] stores or
    does nothing; it stores on an object that accepts the key. *)
Lemma set_outcome_no_setter (h : Heap) (o : Obj) (key : string) :
  proto o = None ->
  no_setter o key = true ->
  (set_outcome h o key = Stores \/ set_outcome h o key = Ignored) /\
  (accepts o key = true -> set_outcome h o key = Stores).
Proof.
  intros Hp Hs. unfold set_outcome, no_setter, accepts in *.
  rewrite Hp, inherited_outcome_None.
  destruct (accessors o !! key) as [[s|]|] eqn:Ha; [discriminate| |];
    repeat case_bool_decide;
    destruct (props o !! key), (extensible o); cbn;
    split; auto; try discriminate; try congruence; try tauto.
Qed.

(** [Set] on an object that accepts the key stores the value there. *)
Lemma Object_Set_accepts (obj : loc) (key : string) (v : Value)
    (h : Heap) (o : Obj) :
  h !! obj = Some o ->
  proto o = None ->
  accepts o key = true ->
  Object_Set obj key v h = (tt, <[obj := set_prop key v o]> h).
Proof.
  intros Hl Hp Hacc. unfold Object_Set. rewrite Hl.
  assert (Hs : no_setter o key = true).
  { unfold accepts in Hacc. unfold no_setter.
    apply andb_true_iff in Hacc as [Hacc _].
    apply andb_true_iff in Hacc as [_ Hacc].
    apply bool_decide_eq_true in Hacc. rewrite Hacc. reflexivity. }
  destruct (set_outcome_no_setter h o key Hp Hs) as [_ Hst].
  rewrite (Hst Hacc). unfold raw_store.
  rewrite (alter_present _ _ _ _ Hl). reflexivity.
Qed.

Lemma Object_Set_bind {A : Type} (obj : loc) (key : string) (v : Value)
    (k : M A) (h : Heap) (o : Obj) :
  h !! obj = Some o ->
  proto o = None ->
  accepts o key = true ->
  (Object_Set obj key v ;;; k) h = k (<[obj := set_prop key v o]> h).
Proof.
  intros Hl Hp Hacc. unfold bind.
  rewrite (Object_Set_accepts obj key v h o Hl Hp Hacc). reflexivity.
Qed.

(** A run of [GetModuleInfo] allocates one object, fills it, and returns
    its handle. *)
Lemma GetModuleInfo_run (b : Build) (info : CallbackInfo) (h : Heap) :
  GetModuleInfo b info h =
  (Ref (fresh (dom h)), <[fresh (dom h) := info_object b]> h).
Proof.
  unfold GetModuleInfo, Object_New, alloc.
  unfold bind at 1. cbn zeta.
  repeat (erewrite Object_Set_bind;
          [|apply lookup_insert_eq|reflexivity
           |rewrite ?accepts_set_prop; apply accepts_mkObj];
          rewrite insert_insert_eq).
  reflexivity.
Qed.

Lemma GetModuleInfo_props (b : Build) (info : CallbackInfo) (h : Heap) :
  props_of (GetModuleInfo b info h).2 (fresh (dom h)) = props (info_object b).
Proof.
  rewrite GetModuleInfo_run. unfold props_of. simpl.
  rewrite lookup_insert_eq. reflexivity.
Qed.

Lemma platform_string_cases (b : Build) :
  platform_string b ∈ ["win32"; "darwin"; "linux"; "unknown"].
Proof.
  unfold platform_string.
  destruct (_WIN32 b), (__APPLE__ b), (__linux__ b); set_solver.
Qed.

Lemma arch_string_cases (b : Build) :
  arch_string b ∈ ["x64"; "ia32"; "arm64"; "unknown"].
Proof.
  unfold arch_string.
  destruct (_M_X64 b), (_M_IX86 b), (__x86_64__ b), (__aarch64__ b);
    set_solver.
Qed.

(** C2: whatever the build, the call arguments and the store, the object
    [GetModuleInfo] returns has exactly the seven fields name, version,
    platform, arch, buildDate, buildTime and symbolVisibility, every one of
    them a string; platform is one of win32, darwin, linux, unknown and
    arch one of x64, ia32, arm64, unknown. *)
Theorem GetModuleInfo_seven_fields
    (b : Build) (info : CallbackInfo) (h : Heap) :
  exists l : loc,
    (GetModuleInfo b info h).1 = Ref l /\
    dom (props_of (GetModuleInfo b info h).2 l) = info_fields /\
    (forall k v, props_of (GetModuleInfo b info h).2 l !! k = Some v ->
                 exists s, v = Str s) /\
    (exists p, props_of (GetModuleInfo b info h).2 l !! "platform" = Some (Str p) /\
               p ∈ ["win32"; "darwin"; "linux"; "unknown"]) /\
    (exists a, props_of (GetModuleInfo b info h).2 l !! "arch" = Some (Str a) /\
               a ∈ ["x64"; "ia32"; "arm64"; "unknown"]).
Proof.
  exists (fresh (dom h)). rewrite GetModuleInfo_props.
  split; [rewrite GetModuleInfo_run; reflexivity|].
  unfold info_object, mkObj; cbn [props].
  split; [|split; [|split]].
  - rewrite !dom_insert_L, dom_empty_L. unfold info_fields. set_solver.
  - intros k v Hk.
    repeat (apply lookup_insert_Some in Hk as [[_ <-]|[_ Hk]]; [eauto|]).
    rewrite lookup_empty in Hk. discriminate.
  - exists (platform_string b). split; [|apply platform_string_cases].
    by simplify_map_eq.
  - exists (arch_string b). split; [|apply arch_string_cases].
    by simplify_map_eq.
Qed.

(** C3: [GetModuleInfo] passes build-time constants through. Two calls of
    the same build, with any call arguments and in any store, return
    objects with the same fields; the returned object is new, and every
    object that existed before the call is left as it was. *)
Theorem GetModuleInfo_pure
    (b : Build) (info1 info2 : CallbackInfo) (h1 h2 : Heap) :
  exists l1 l2 : loc,
    (GetModuleInfo b info1 h1).1 = Ref l1 /\
    (GetModuleInfo b info2 h2).1 = Ref l2 /\
    props_of (GetModuleInfo b info1 h1).2 l1 =
      props_of (GetModuleInfo b info2 h2).2 l2 /\
    (l1 ∉ dom h1) /\
    dom (GetModuleInfo b info1 h1).2 = {[ l1 ]} ∪ dom h1 /\
    (forall l, l ∈ dom h1 -> (GetModuleInfo b info1 h1).2 !! l = h1 !! l).
Proof.
  exists (fresh (dom h1)), (fresh (dom h2)).
  rewrite !GetModuleInfo_props. rewrite !GetModuleInfo_run. simpl.
  pose proof (is_fresh (dom h1)) as Hfresh.
  repeat split; try done.
  - apply dom_insert_L.
  - intros l Hl. apply lookup_insert_ne. intros <-. contradiction.
Qed.

(** C8: the name field is "web3_crypto_native" and the version field is
    "1.0.0", for every build (platform, architecture), every call and
    every store. *)
Theorem GetModuleInfo_name_version
    (b : Build) (info : CallbackInfo) (h : Heap) :
  exists l : loc,
    (GetModuleInfo b info h).1 = Ref l /\
    props_of (GetModuleInfo b info h).2 l !! "name" =
      Some (Str "web3_crypto_native") /\
    props_of (GetModuleInfo b info h).2 l !! "version" = Some (Str "1.0.0").
Proof.
  exists (fresh (dom h)). rewrite GetModuleInfo_props.
  split; [rewrite GetModuleInfo_run; reflexivity|].
  unfold info_object, mkObj; cbn [props]. split; by simplify_map_eq.
Qed.

(** C10: the symbolVisibility field is "dllexport" when the build defines
    [_WIN32] and "default" on every other build, for every call. *)
Theorem GetModuleInfo_symbolVisibility
    (b : Build) (info : CallbackInfo) (h : Heap) :
  exists l : loc,
    (GetModuleInfo b info h).1 = Ref l /\
    props_of (GetModuleInfo b info h).2 l !! "symbolVisibility" =
      Some (Str (if _WIN32 b then "dllexport" else "default")).
Proof.
  exists (fresh (dom h)). rewrite GetModuleInfo_props.
  split; [rewrite GetModuleInfo_run; reflexivity|].
  unfold info_object, mkObj; cbn [props]. by simplify_map_eq.
Qed.

Lemma same_attributes_refl (o : Obj) : same_attributes o o.
Proof. repeat split. Qed.

Lemma same_attributes_trans (o1 o2 o3 : Obj) :
  same_attributes o1 o2 -> same_attributes o2 o3 -> same_attributes o1 o3.
Proof.
  unfold same_attributes. intros (?&?&?&?&?) (?&?&?&?&?).
  repeat split; congruence.
Qed.

Lemma same_attributes_accepts (o o' : Obj) (key : string) :
  same_attributes o o' -> accepts o' key = accepts o key.
Proof.
  intros (_ & He & Hr & Ha & _). unfold accepts. rewrite He, Hr, Ha.
  reflexivity.
Qed.

Lemma same_attributes_no_setter (o o' : Obj) (key : string) :
  same_attributes o o' -> no_setter o' key = no_setter o key.
Proof.
  intros (_ & _ & _ & Ha & _). unfold no_setter. rewrite Ha. reflexivity.
Qed.

(** [Set] on an object without a setter for the key changes at most the
    value of that one property of that one object. *)
Lemma Object_Set_no_setter (obj : loc) (key : string) (v : Value)
    (h : Heap) (o : Obj) :
  h !! obj = Some o ->
  proto o = None ->
  no_setter o key = true ->
  exists o' : Obj,
    Object_Set obj key v h = (tt, <[obj := o']> h) /\
    same_attributes o o' /\
    (forall k', k' ≠ key -> props o' !! k' = props o !! k') /\
    (accepts o key = true -> props o' !! key = Some v).
Proof.
  intros Hl Hp Hs. unfold Object_Set. rewrite Hl.
  destruct (set_outcome_no_setter h o key Hp Hs) as [[Hout|Hout] Hacc];
    rewrite Hout.
  - exists (set_prop key v o). unfold raw_store.
    rewrite (alter_present _ _ _ _ Hl).
    split; [reflexivity|]. split; [repeat split|].
    cbn [set_prop props]. split.
    + intros k' Hk. apply lookup_insert_ne. congruence.
    + intros _. apply lookup_insert_eq.
  - exists o. rewrite (insert_id _ _ _ Hl).
    split; [reflexivity|]. split; [apply same_attributes_refl|].
    split; [reflexivity|].
    intros Ha. rewrite (Hacc Ha) in Hout. discriminate.
Qed.

(** One registration of [Initialize] on an exports object without a
    setter for [name]: a new function object is made, and the exports
    object changes at most in the value of [name], which becomes the new
    handle when the object accepts the key. *)
Lemma register_bind {A : Type} (env : Env) (e : loc) (name : string)
    (cb : Callback) (k : M A) (h : Heap) (o : Obj) :
  h !! e = Some o ->
  proto o = None ->
  no_setter o name = true ->
  exists (lf : loc) (h' : Heap) (o' : Obj),
    (f <~ Function_New env cb ;; Object_Set e name f ;;; k) h = k h' /\
    (lf ∉ dom h) /\
    h' !! e = Some o' /\
    same_attributes o o' /\
    (forall k', k' ≠ name -> props o' !! k' = props o !! k') /\
    (accepts o name = true -> props o' !! name = Some (Ref lf)) /\
    (exists fo, h' !! lf = Some fo /\ callable fo = Some cb) /\
    (forall l, l ∈ dom h -> l ≠ e -> h' !! l = h !! l) /\
    (forall l, l ∈ dom h -> l ∈ dom h').
Proof.
  intros He Hp Hs.
  set (lf := fresh (dom h)).
  set (lp := fresh ({[ lf ]} ∪ dom h)).
  set (h1 := <[lp := prototype_object lf]> (<[lf := function_object cb lp]> h)).
  assert (Hlf : lf ∉ dom h) by apply is_fresh.
  assert (Hlp : lp ∉ {[ lf ]} ∪ dom h) by apply is_fresh.
  rewrite elem_of_union, elem_of_singleton in Hlp.
  assert (Hpf : lp ≠ lf) by tauto.
  assert (Hph : lp ∉ dom h) by tauto.
  assert (Ie : e ∈ dom h) by (apply elem_of_dom; eauto).
  assert (Hle : lf ≠ e) by (intros Heq; apply Hlf; rewrite Heq; exact Ie).
  assert (Hpe : lp ≠ e) by (intros Heq; apply Hph; rewrite Heq; exact Ie).
  assert (He1 : h1 !! e = Some o).
  { unfold h1. rewrite !lookup_insert_ne by assumption. exact He. }
  destruct (Object_Set_no_setter e name (Ref lf) h1 o He1 Hp Hs)
    as (o' & Hrun & Hsame & Hother & Hname).
  exists lf, (<[e := o']> h1), o'.
  split.
  { unfold bind at 1. unfold Function_New. fold lf lp h1.
    unfold bind. rewrite Hrun. reflexivity. }
  split; [exact Hlf|]. split; [apply lookup_insert_eq|].
  split; [exact Hsame|]. split; [exact Hother|]. split; [exact Hname|].
  split.
  { exists (function_object cb lp). split; [|reflexivity].
    rewrite lookup_insert_ne by congruence. unfold h1.
    rewrite lookup_insert_ne by assumption. apply lookup_insert_eq. }
  split.
  - intros l Hl Hne. rewrite lookup_insert_ne by congruence. unfold h1.
    rewrite !lookup_insert_ne; [reflexivity| |]; intros <-; contradiction.
  - intros l Hl. unfold h1. rewrite !dom_insert_L, !elem_of_union. auto.
Qed.

(** A run of [Initialize] on an existing exports object on which no
    assignment runs a setter: four new function objects are made, the
    handle passed in is handed back, and the exports object changes at
    most in the values of the four names; a name the object accepts is
    bound to its new function. *)
Lemma Initialize_run (env : Env) (e : loc) (h : Heap) (o : Obj) :
  h !! e = Some o ->
  setter_free o = true ->
  exists (l1 l2 l3 l4 : loc) (h' : Heap) (o' : Obj),
    Initialize env e h = (e, h') /\
    h' !! e = Some o' /\
    same_attributes o o' /\
    (forall k, k ∉ entry_points -> props o' !! k = props o !! k) /\
    (accepts o "aesEncrypt" = true ->
       props o' !! "aesEncrypt" = Some (Ref l1)) /\
    (accepts o "aesDecrypt" = true ->
       props o' !! "aesDecrypt" = Some (Ref l2)) /\
    (accepts o "sha256" = true -> props o' !! "sha256" = Some (Ref l3)) /\
    (accepts o "getModuleInfo" = true ->
       props o' !! "getModuleInfo" = Some (Ref l4)) /\
    is_function h' (Ref l1) Napi.AesEncrypt /\
    is_function h' (Ref l2) Napi.AesDecrypt /\
    is_function h' (Ref l3) Napi.Sha256Hash /\
    is_function h' (Ref l4) Napi.GetModuleInfo /\
    (forall l, l ∈ dom h -> l ≠ e -> h' !! l = h !! l) /\
    NoDup [l1; l2; l3; l4] /\
    (forall l, l ∈ [l1; l2; l3; l4] -> l ∉ dom h) /\
    (forall l, l ∈ dom h -> l ∈ dom h').
Proof.
  intros He Hfree. unfold setter_free in Hfree.
  repeat (apply andb_true_iff in Hfree as [Hfree ?]).
  apply bool_decide_eq_true in Hfree.
  rename Hfree into Hp. rename H2 into S1. rename H1 into S2.
  rename H0 into S3. rename H into S4.
  unfold Initialize, String_New.
  destruct (register_bind env e "aesEncrypt" Napi.AesEncrypt
    (f <~ Function_New env Napi.AesDecrypt ;; Object_Set e "aesDecrypt" f ;;;
     f <~ Function_New env Napi.Sha256Hash ;; Object_Set e "sha256" f ;;;
     f <~ Function_New env Napi.GetModuleInfo ;; Object_Set e "getModuleInfo" f ;;;
     ret e) h o He Hp S1)
    as (l1 & h1 & o1 & R1 & F1 & E1 & A1 & K1 & B1 & C1 & O1 & D1).
  assert (P1 : proto o1 = None)
    by (destruct A1 as (_ & _ & _ & _ & ->); exact Hp).
  rewrite <- (same_attributes_no_setter o o1 "aesDecrypt" A1) in S2.
  destruct (register_bind env e "aesDecrypt" Napi.AesDecrypt
    (f <~ Function_New env Napi.Sha256Hash ;; Object_Set e "sha256" f ;;;
     f <~ Function_New env Napi.GetModuleInfo ;; Object_Set e "getModuleInfo" f ;;;
     ret e) h1 o1 E1 P1 S2)
    as (l2 & h2 & o2 & R2 & F2 & E2 & A2 & K2 & B2 & C2 & O2 & D2).
  pose proof (same_attributes_trans _ _ _ A1 A2) as A12.
  assert (P2 : proto o2 = None)
    by (destruct A12 as (_ & _ & _ & _ & ->); exact Hp).
  rewrite <- (same_attributes_no_setter o o2 "sha256" A12) in S3.
  destruct (register_bind env e "sha256" Napi.Sha256Hash
    (f <~ Function_New env Napi.GetModuleInfo ;; Object_Set e "getModuleInfo" f ;;;
     ret e) h2 o2 E2 P2 S3)
    as (l3 & h3 & o3 & R3 & F3 & E3 & A3 & K3 & B3 & C3 & O3 & D3).
  pose proof (same_attributes_trans _ _ _ A12 A3) as A13.
  assert (P3 : proto o3 = None)
    by (destruct A13 as (_ & _ & _ & _ & ->); exact Hp).
  rewrite <- (same_attributes_no_setter o o3 "getModuleInfo" A13) in S4.
  destruct (register_bind env e "getModuleInfo" Napi.GetModuleInfo
    (ret e) h3 o3 E3 P3 S4)
    as (l4 & h4 & o4 & R4 & F4 & E4 & A4 & K4 & B4 & C4 & O4 & D4).
  pose proof (same_attributes_trans _ _ _ A13 A4) as A14.
  destruct C1 as (f1 & L1 & G1). destruct C2 as (f2 & L2 & G2).
  destruct C3 as (f3 & L3 & G3). destruct C4 as (f4 & L4 & G4).
  assert (Ie : e ∈ dom h) by (apply elem_of_dom; eauto).
  assert (I1 : l1 ∈ dom h1) by (apply elem_of_dom; eauto).
  assert (I2 : l2 ∈ dom h2) by (apply elem_of_dom; eauto).
  assert (I3 : l3 ∈ dom h3) by (apply elem_of_dom; eauto).
  assert (N0 : forall l, l ∈ dom h -> l ≠ l1) by (intros l Hl ->; contradiction).
  assert (N1 : forall l, l ∈ dom h1 -> l ≠ l2) by (intros l Hl ->; contradiction).
  assert (N2 : forall l, l ∈ dom h2 -> l ≠ l3) by (intros l Hl ->; contradiction).
  assert (N3 : forall l, l ∈ dom h3 -> l ≠ l4) by (intros l Hl ->; contradiction).
  assert (Q1e : l1 ≠ e) by (intros Heq; apply (N0 e Ie); congruence).
  assert (Q2e : l2 ≠ e) by (intros Heq; apply (N1 e (D1 e Ie)); congruence).
  assert (Q3e : l3 ≠ e)
    by (intros Heq; apply (N2 e (D2 e (D1 e Ie))); congruence).
  assert (Q12 : l1 ≠ l2) by auto.
  assert (Q13 : l1 ≠ l3) by auto.
  assert (Q14 : l1 ≠ l4) by auto.
  assert (Q23 : l2 ≠ l3) by auto.
  assert (Q24 : l2 ≠ l4) by auto.
  assert (Q34 : l3 ≠ l4) by auto.
  exists l1, l2, l3, l4, h4, o4.
  split; [rewrite R1, R2, R3, R4; reflexivity|].
  split; [exact E4|]. split; [exact A14|].
  split.
  { intros k Hk. unfold entry_points in Hk.
    rewrite !not_elem_of_union, !not_elem_of_singleton in Hk.
    destruct Hk as (((? & ?) & ?) & ?).
    rewrite K4, K3, K2, K1 by assumption. reflexivity. }
  split.
  { intros Ha. rewrite K4, K3, K2 by discriminate. auto. }
  split.
  { intros Ha. rewrite K4, K3 by discriminate. apply B2.
    rewrite (same_attributes_accepts _ _ _ A1). exact Ha. }
  split.
  { intros Ha. rewrite K4 by discriminate. apply B3.
    rewrite (same_attributes_accepts _ _ _ A12). exact Ha. }
  split.
  { intros Ha. apply B4.
    rewrite (same_attributes_accepts _ _ _ A13). exact Ha. }
  split.
  { exists l1, f1. split; [reflexivity|]. split; [|exact G1].
    rewrite O4, O3, O2; auto. }
  split.
  { exists l2, f2. split; [reflexivity|]. split; [|exact G2].
    rewrite O4, O3; auto. }
  split.
  { exists l3, f3. split; [reflexivity|]. split; [|exact G3].
    rewrite O4; auto. }
  split.
  { exists l4, f4. auto. }
  split.
  { intros l Hl Hle. rewrite O4, O3, O2, O1; auto 10. }
  split.
  { repeat (apply NoDup_cons; split;
            [rewrite ?not_elem_of_cons; repeat split;
             auto using not_elem_of_nil|]).
    apply NoDup_nil. exact I. }
  split.
  { intros l Hl Hin.
    rewrite !elem_of_cons, elem_of_nil in Hl.
    destruct Hl as [-> | [-> | [-> | [-> | []]]]].
    - contradiction.
    - apply F2. auto.
    - apply F3. auto.
    - apply F4. auto. }
  auto 10.
Qed.

Lemma writable_exports_spec (o : Obj) :
  writable_exports o = true ->
  setter_free o = true /\
  accepts o "aesEncrypt" = true /\ accepts o "aesDecrypt" = true /\
  accepts o "sha256" = true /\ accepts o "getModuleInfo" = true.
Proof.
  unfold writable_exports, setter_free. intros Hw.
  repeat (apply andb_true_iff in Hw as [Hw ?]).
  assert (Hns : forall k, accepts o k = true -> no_setter o k = true).
  { intros k Ha. unfold accepts in Ha. unfold no_setter.
    apply andb_true_iff in Ha as [Ha _].
    apply andb_true_iff in Ha as [_ Ha].
    apply bool_decide_eq_true in Ha. rewrite Ha. reflexivity. }
  rewrite Hw, !Hns by assumption. auto.
Qed.

(** C1 (as amended): on an existing exports object that is extensible,
    has the standard prototype and has none of the four names as a
    read-only or accessor property, [Initialize] registers the AES
    encryption function under "aesEncrypt", the AES decryption function
    under "aesDecrypt", the SHA-256 function under "sha256" and the
    diagnostic accessor under "getModuleInfo", and registers no other
    name: the data properties of the exports object afterwards are those
    it had before plus these four, and its accessor properties are as
    before. *)
Theorem Initialize_registers_four
    (env : Env) (exports : loc) (h : Heap) (o : Obj) :
  h !! exports = Some o ->
  writable_exports o = true ->
  let h' := (Initialize env exports h).2 in
  dom (props_of h' exports) = dom (props o) ∪ entry_points /\
  (exists f, props_of h' exports !! "aesEncrypt" = Some f /\
             is_function h' f Napi.AesEncrypt) /\
  (exists f, props_of h' exports !! "aesDecrypt" = Some f /\
             is_function h' f Napi.AesDecrypt) /\
  (exists f, props_of h' exports !! "sha256" = Some f /\
             is_function h' f Napi.Sha256Hash) /\
  (exists f, props_of h' exports !! "getModuleInfo" = Some f /\
             is_function h' f Napi.GetModuleInfo) /\
  accessors <$> h' !! exports = Some (accessors o).
Proof.
  intros He Hw.
  destruct (writable_exports_spec o Hw) as (Hfree & W1 & W2 & W3 & W4).
  destruct (Initialize_run env exports h o He Hfree)
    as (l1 & l2 & l3 & l4 & h' & o' & R & E & A & Hother
        & B1 & B2 & B3 & B4 & G1 & G2 & G3 & G4 & _).
  specialize (B1 W1). specialize (B2 W2).
  specialize (B3 W3). specialize (B4 W4).
  rewrite R. cbn [snd]. unfold props_of. rewrite E.
  destruct A as (_ & _ & _ & Hacc & _).
  split.
  { apply set_eq. intros x. rewrite elem_of_union, !elem_of_dom.
    destruct (decide (x ∈ entry_points)) as [Hin|Hout].
    - split; [auto|]. intros _. unfold entry_points in Hin.
      rewrite !elem_of_union, !elem_of_singleton in Hin.
      destruct Hin as [[[-> | ->] | ->] | ->]; eauto.
    - rewrite (Hother x Hout). tauto. }
  split; [eauto|]. split; [eauto|]. split; [eauto|]. split; [eauto|].
  cbn. rewrite Hacc. reflexivity.
Qed.

(** C1 as the claim words it, for every exports object, fails on a frozen
    one: the four assignments are ignored, and the object still has no
    property after the call. *)
Lemma Initialize_skips_frozen_exports :
  let o := MkObj ∅ None false ∅ ∅ None in
  let h : Heap := <[1%positive := o]> ∅ in
  let h' := (Initialize (mkEnv 0) 1%positive h).2 in
  h !! 1%positive = Some o /\
  props_of h' 1%positive = ∅ /\
  ~ (exists f, props_of h' 1%positive !! "aesEncrypt" = Some f /\
               is_function h' f Napi.AesEncrypt).
Proof.
  cbn zeta.
  assert (Hp : props_of (Initialize (mkEnv 0) 1%positive
                 (<[1%positive := MkObj ∅ None false ∅ ∅ None]> ∅)).2
                 1%positive = ∅) by (vm_compute; reflexivity).
  split; [reflexivity|]. split; [exact Hp|].
  intros (f & Hf & _). rewrite Hp, lookup_empty in Hf. discriminate.
Qed.

(** What a computation returns when every continuation returns the same
    value. *)
Lemma bind_returns {A B : Type} (m : M A) (k : A -> M B) (r : B) :
  (forall a h, (k a h).1 = r) -> forall h, (bind m k h).1 = r.
Proof.
  intros Hk h. unfold bind. destruct (m h) as [a h1]. apply Hk.
Qed.

(** [Initialize] hands back the handle it was given, in every store. *)
Lemma Initialize_returns_handle (env : Env) (e : loc) (h : Heap) :
  (Initialize env e h).1 = e.
Proof.
  revert h. unfold Initialize.
  repeat (apply bind_returns; intros ?). reflexivity.
Qed.

(** C9 (as amended): [Initialize] hands back the handle it was given (the
    same object, not a copy); and when the exports object has the
    standard prototype and none of the four names as an accessor property
    with a setter, every property of that object other than
    "aesEncrypt", "aesDecrypt", "sha256" and "getModuleInfo" reads as it
    did before the call. *)
Theorem Initialize_returns_exports
    (env : Env) (exports : loc) (h : Heap) (o : Obj) :
  h !! exports = Some o ->
  (Initialize env exports h).1 = exports /\
  (setter_free o = true ->
   forall k : string, k ∉ entry_points ->
     props_of (Initialize env exports h).2 exports !! k =
     props_of h exports !! k).
Proof.
  intros He. split; [apply Initialize_returns_handle|].
  intros Hfree.
  destruct (Initialize_run env exports h o He Hfree)
    as (l1 & l2 & l3 & l4 & h' & o' & R & E & _ & Hother & _).
  rewrite R. cbn [snd].
  intros k Hk. unfold props_of. rewrite E, He. apply Hother. exact Hk.
Qed.

(** C9 as the claim words it, for every exports object, fails on one
    where "sha256" is an accessor whose setter writes another property:
    the assignment of [Initialize] runs the setter, and "keep" reads
    differently afterwards. *)
Lemma Initialize_runs_exports_setter :
  let o := MkObj (<["keep" := Str "me"]> ∅) None true ∅
             (<["sha256" :=
                  Some [MkWrite None "keep" (Some (Str "changed"))]]> ∅)
             None in
  let h : Heap := <[1%positive := o]> ∅ in
  h !! 1%positive = Some o /\
  ("keep" ∉ entry_points) /\
  props_of h 1%positive !! "keep" = Some (Str "me") /\
  props_of (Initialize (mkEnv 0) 1%positive h).2 1%positive !! "keep"
    = Some (Str "changed").
Proof.
  cbn zeta. split; [reflexivity|]. split.
  { unfold entry_points.
    rewrite !not_elem_of_union, !not_elem_of_singleton.
    repeat split; discriminate. }
  split; vm_compute; reflexivity.
Qed.

(** A read-only property under one of the four names keeps its value. *)
Example Initialize_keeps_readonly_sha256 :
  let o := MkObj (<["sha256" := Str "locked"]> ∅) None true {[ "sha256" ]}
             ∅ None in
  let h : Heap := <[1%positive := o]> ∅ in
  props_of (Initialize (mkEnv 0) 1%positive h).2 1%positive !! "sha256"
    = Some (Str "locked").
Proof. vm_compute. reflexivity. Qed.

(** C1 on a concrete store: an exports object that already has one
    property. *)
Lemma Initialize_registers_four_witness :
  let o := mkObj (<["keep" := Str "me"]> ∅) None in
  let h : Heap := <[1%positive := o]> ∅ in
  h !! 1%positive = Some o /\
  writable_exports o = true /\
  dom (props_of (Initialize (mkEnv 0) 1%positive h).2 1%positive) =
    dom (props o) ∪ entry_points.
Proof.
  split; [reflexivity|]. split; [vm_compute; reflexivity|].
  apply (Initialize_registers_four (mkEnv 0) 1%positive
           (<[1%positive := mkObj (<["keep" := Str "me"]> ∅) None]> ∅)
           (mkObj (<["keep" := Str "me"]> ∅) None)).
  - reflexivity.
  - vm_compute; reflexivity.
Defined.

(** C9 on a frozen exports object with one read-only property. *)
Lemma Initialize_returns_exports_witness :
  let o := MkObj (<["keep" := Str "me"]> ∅) None false {[ "keep" ]} ∅ None in
  let h : Heap := <[1%positive := o]> ∅ in
  h !! 1%positive = Some o /\
  setter_free o = true /\
  (Initialize (mkEnv 0) 1%positive h).1 = 1%positive /\
  (setter_free o = true ->
   forall k : string, k ∉ entry_points ->
     props_of (Initialize (mkEnv 0) 1%positive h).2 1%positive !! k =
     props_of h 1%positive !! k).
Proof.
  split; [reflexivity|]. split; [vm_compute; reflexivity|].
  apply (Initialize_returns_exports (mkEnv 0) 1%positive
           (<[1%positive :=
                MkObj (<["keep" := Str "me"]> ∅) None false {[ "keep" ]} ∅ None]> ∅)
           (MkObj (<["keep" := Str "me"]> ∅) None false {[ "keep" ]} ∅ None)).
  reflexivity.
Defined.

(** No primitive of the object model removes an object from the store. *)
Lemma keeps_objects_ret {A : Type} (a : A) : keeps_objects (ret a).
Proof. intros h l Hl. exact Hl. Qed.

Lemma keeps_objects_bind {A B : Type} (m : M A) (k : A -> M B) :
  keeps_objects m -> (forall a, keeps_objects (k a)) ->
  keeps_objects (bind m k).
Proof.
  intros Hm Hk h l Hl. unfold bind.
  specialize (Hm h l Hl). destruct (m h) as [a h1]. apply Hk. exact Hm.
Qed.

Lemma keeps_objects_Function_New (env : Env) (cb : Callback) :
  keeps_objects (Function_New env cb).
Proof.
  intros h l Hl. unfold Function_New. cbn [snd].
  rewrite !dom_insert_L, !elem_of_union. auto.
Qed.

Lemma dom_run_setter (s : Setter) (this : loc) (v : Value) (h : Heap) :
  dom (run_setter s this v h) = dom h.
Proof.
  unfold run_setter. revert h. induction s as [|w s IH]; intros h.
  - reflexivity.
  - cbn [fold_left]. rewrite IH. unfold raw_store. apply dom_alter_L.
Qed.

Lemma keeps_objects_Object_Set (obj : loc) (key : string) (v : Value) :
  keeps_objects (Object_Set obj key v).
Proof.
  intros h l Hl. unfold Object_Set.
  destruct (h !! obj) as [o|]; [|exact Hl].
  destruct (set_outcome h o key); cbn [snd].
  - unfold raw_store. rewrite dom_alter_L. exact Hl.
  - exact Hl.
  - rewrite dom_run_setter. exact Hl.
Qed.

(** [Initialize] removes no object, whatever the exports object is. *)
Lemma keeps_objects_Initialize (env : Env) (exports : loc) :
  keeps_objects (Initialize env exports).
Proof.
  unfold Initialize.
  repeat (apply keeps_objects_bind;
          [first [apply keeps_objects_Function_New
                 |apply keeps_objects_Object_Set]|intros ?]).
  apply keeps_objects_ret.
Qed.

End MainFacts.

(* ===================================================================== *)
(** ** Properties of the SHA-256 engine                                  *)
(* ===================================================================== *)

Module Sha256Facts.
Import Sha256.

Lemma update_byte_finalized (st : HashState) (x : Z) :
  finalized (update_byte st x) = finalized st.
Proof. unfold update_byte. destruct (_ =? _)%nat; reflexivity. Qed.

Lemma absorb_finalized (d : list Z) (st : HashState) :
  finalized (fold_left update_byte d st) = finalized st.
Proof.
  revert st. induction d as [|x d IH]; intros st; simpl; [reflexivity|].
  rewrite IH. apply update_byte_finalized.
Qed.

(** Feeding chunks one after the other is feeding their concatenation. *)
Lemma update_all_concat (chunks : list (list Z)) (st : HashState) :
  finalized st = false ->
  update_all st chunks = Ok (fold_left update_byte (concat chunks) st).
Proof.
  revert st. induction chunks as [|c cs IH]; intros st Hf; simpl.
  - reflexivity.
  - unfold update. rewrite Hf. rewrite IH.
    + rewrite fold_left_app. reflexivity.
    + rewrite absorb_finalized. exact Hf.
Qed.

(** [process] cut in two. *)
Lemma process_split (n m : nat) (h msg : list Z) :
  process (n + m) h msg = process m (process n h msg) (drop (64 * n) msg).
Proof.
  revert h msg. induction n as [|n IH]; intros h msg.
  - reflexivity.
  - cbn [Nat.add process]. rewrite IH, drop_drop.
    replace (64 + 64 * n)%nat with (64 * S n)%nat by lia. reflexivity.
Qed.

(** [process n] reads the first [n] blocks only. *)
Lemma process_prefix (n : nat) (h l1 l2 : list Z) :
  (64 * n <= length l1)%nat ->
  process n h (l1 ++ l2) = process n h l1.
Proof.
  revert h l1. induction n as [|n IH]; intros h l1 Hl.
  - reflexivity.
  - cbn [process].
    rewrite take_app_le by lia. rewrite drop_app_le by lia.
    apply IH. rewrite length_drop. lia.
Qed.

(** What the accumulator holds after absorbing [d]: the whole blocks of
    buffer-plus-[d] have gone through the compression function, the rest
    waits in the buffer, and the counter has advanced by 512 per block. *)
Lemma absorb_spec (d : list Z) (st : HashState) :
  (length (buffer st) < 64)%nat ->
  let all := buffer st ++ d in
  let n := (length all / 64)%nat in
  exists bl : Z,
    fold_left update_byte d st =
      mkHashState (drop (64 * n) all) (process n (state st) all) bl
                  (finalized st) /\
    bl mod 2 ^ 64 = (bitlen st + 512 * Z.of_nat n) mod 2 ^ 64.
Proof.
  revert st. induction d as [|x d IH]; intros st Hlen; cbn zeta.
  - rewrite app_nil_r. rewrite Nat.div_small by exact Hlen.
    exists (bitlen st). split.
    + destruct st; reflexivity.
    + f_equal. lia.
  - cbn [fold_left]. unfold update_byte at 2.
    destruct (Nat.eqb_spec (length (buffer st ++ [x])) 64) as [Hfull|Hnot].
    + match goal with |- context [fold_left _ d ?s] =>
        destruct (IH s) as (bl & Hrun & Hbl); [simpl; lia|] end.
      cbn [buffer state bitlen finalized] in Hrun, Hbl.
      rewrite app_nil_l in Hrun, Hbl.
      assert (Hn : (length (buffer st ++ x :: d) / 64 =
                    S (length d / 64))%nat).
      { assert (Hl : length (buffer st ++ x :: d) = (length d + 1 * 64)%nat).
        { rewrite length_app in *. cbn [length] in *. lia. }
        rewrite Hl, Nat.div_add by lia. lia. }
      rewrite Hn. exists bl. split.
      * rewrite Hrun. f_equal.
        -- replace (64 * S (length d / 64))%nat
             with (64 + 64 * (length d / 64))%nat by lia.
           rewrite <- drop_drop.
           replace (buffer st ++ x :: d) with ((buffer st ++ [x]) ++ d)
             by (rewrite <- app_assoc; reflexivity).
           rewrite drop_app_length' by (symmetry; exact Hfull). reflexivity.
        -- cbn [process].
           replace (buffer st ++ x :: d) with ((buffer st ++ [x]) ++ d)
             by (rewrite <- app_assoc; reflexivity).
           rewrite take_app_length' by (symmetry; exact Hfull).
           rewrite drop_app_length' by (symmetry; exact Hfull). reflexivity.
      * rewrite Hbl. rewrite Zplus_mod_idemp_l. f_equal. lia.
    + match goal with |- context [fold_left _ d ?s] =>
        destruct (IH s) as (bl & Hrun & Hbl) end.
      { cbn [buffer]. rewrite length_app in *. cbn [length] in *. lia. }
      cbn [buffer state bitlen finalized] in Hrun, Hbl.
      rewrite <- app_assoc in Hrun, Hbl. simpl in Hrun, Hbl.
      exists bl. split; assumption.
Qed.

Lemma length_be64 (n : Z) : length (be64 n) = 8%nat.
Proof. reflexivity. Qed.

(** Finalizing after all of [data] went in gives the one-shot digest:
    the padding blocks [finalize] builds from the buffer are the last
    blocks of [pad data]. *)
Lemma finalize_absorbed (data : list Z) (bl : Z) :
  let n := (length data / 64)%nat in
  bl mod 2 ^ 64 = (512 * Z.of_nat n) mod 2 ^ 64 ->
  exists st' : HashState,
    finalize (mkHashState (drop (64 * n) data) (process n H0 data) bl false)
    = Ok (hashOneShot data, st').
Proof.
  intros n Hbl. unfold finalize. cbn [finalized buffer state bitlen].
  eexists. f_equal. f_equal.
  unfold hashOneShot. f_equal.
  set (r := drop (64 * n) data).
  set (h := process n H0 data).
  pose proof (Nat.div_mod_eq (length data) 64) as Hdm.
  pose proof (Nat.mod_upper_bound (length data) 64 ltac:(lia)) as Hm.
  fold n in Hdm.
  assert (Hr : length r = (length data mod 64)%nat).
  { unfold r. rewrite length_drop. lia. }
  set (m := (length data mod 64)%nat) in *.
  assert (Htotal : (bl + 8 * Z.of_nat (length r)) mod 2 ^ 64 =
                   (8 * Z.of_nat (length data)) mod 2 ^ 64).
  { rewrite <- Zplus_mod_idemp_l, Hbl, Zplus_mod_idemp_l. f_equal. lia. }
  rewrite Htotal.
  set (T := (8 * Z.of_nat (length data)) mod 2 ^ 64).
  unfold pad. fold T.
  set (k := Z.to_nat ((55 - Z.of_nat (length data)) mod 64)).
  set (tail := [128] ++ replicate k 0 ++ be64 T).
  assert (Hsplit : forall t : nat,
    process (n + t) H0 (data ++ tail) = process t h (r ++ tail)).
  { intros t. rewrite process_split.
    rewrite process_prefix by lia.
    rewrite drop_app_le by lia. reflexivity. }
  destruct (Nat.ltb_spec (length r) 56) as [Hlt|Hge].
  - assert (Hk : k = (55 - length r)%nat).
    { unfold k. rewrite Hr.
      assert ((55 - Z.of_nat (length data)) mod 64 = 55 - Z.of_nat m)
        by (Z.to_euclidean_division_equations; lia).
      lia. }
    assert (Hlen : length (r ++ tail) = 64%nat).
    { unfold tail. rewrite !length_app, length_replicate, length_be64.
      cbn [length]. lia. }
    assert (Hblocks : (length (data ++ tail) / 64 = n + 1)%nat).
    { rewrite length_app.
      assert (length tail = (64 - m)%nat) by (rewrite length_app in Hlen; lia).
      replace (length data + length tail)%nat with (0 + (n + 1) * 64)%nat by lia.
      rewrite Nat.div_add by lia. reflexivity. }
    rewrite Hblocks, Hsplit. cbn [process].
    rewrite take_ge by lia. unfold tail. rewrite Hk. reflexivity.
  - assert (Hk : k = (63 - length r + 56)%nat).
    { unfold k. rewrite Hr.
      assert ((55 - Z.of_nat (length data)) mod 64 = 119 - Z.of_nat m)
        by (Z.to_euclidean_division_equations; lia).
      lia. }
    assert (Hfirst : length (r ++ [128] ++ replicate (63 - length r) 0) = 64%nat).
    { rewrite !length_app, length_replicate. cbn [length]. lia. }
    assert (Htail : r ++ tail =
      (r ++ [128] ++ replicate (63 - length r) 0) ++ (replicate 56 0 ++ be64 T)).
    { unfold tail. rewrite Hk, replicate_add. rewrite <- !app_assoc. reflexivity. }
    assert (Hblocks : (length (data ++ tail) / 64 = n + 2)%nat).
    { rewrite length_app.
      assert (length tail = (128 - m)%nat).
      { unfold tail. rewrite !length_app, length_replicate, length_be64.
        cbn [length]. lia. }
      replace (length data + length tail)%nat with (0 + (n + 2) * 64)%nat by lia.
      rewrite Nat.div_add by lia. reflexivity. }
    rewrite Hblocks, Hsplit, Htail. cbn [process].
    rewrite take_app_length' by (symmetry; exact Hfirst).
    rewrite drop_app_length' by (symmetry; exact Hfirst).
    rewrite take_ge by (rewrite length_app, length_replicate, length_be64; lia).
    reflexivity.
Qed.

(** C6: for every byte sequence and every way of cutting it into chunks
    (empty chunks included), feeding the chunks in order to a fresh
    stream and finalizing succeeds and returns the one-shot digest of the
    whole sequence; so every chunking of the same data gives the same
    digest. *)
Theorem streaming_equals_oneshot (chunks : list (list Z)) :
  exists st st' : HashState,
    update_all newStream chunks = Ok st /\
    finalize st = Ok (hashOneShot (concat chunks), st').
Proof.
  rewrite update_all_concat by reflexivity.
  destruct (absorb_spec (concat chunks) newStream) as (bl & Hrun & Hbl);
    [simpl; lia|].
  cbn [newStream buffer state bitlen finalized] in Hrun, Hbl.
  rewrite app_nil_l in Hrun, Hbl.
  destruct (finalize_absorbed (concat chunks) bl) as (st' & Hfin).
  { rewrite Hbl. f_equal. }
  eexists _, st'. split; [reflexivity|].
  rewrite Hrun. exact Hfin.
Qed.

(** The constants are the published ones: first and last round constant,
    first and last initial hash value. *)
Example K_ends :
  length K = 64%nat /\ nth 0 K 0 = 0x428a2f98 /\ nth 63 K 0 = 0xc67178f2.
Proof. repeat split. Qed.

Example H0_ends :
  length H0 = 8%nat /\ nth 0 H0 0 = 0x6a09e667 /\ nth 7 H0 0 = 0x5be0cd19.
Proof. repeat split. Qed.

(** The engine on published vectors: the NIST one-block message "abc" and
    the two-block message of FIPS 180, one-shot and streamed in pieces. *)
Example hashOneShot_abc :
  hex (hashOneShot (bytes_of_string "abc")) =
  "ba7816bf8f01cfea414140de5dae2223b00361a396177a9cb410ff61f20015ad".
Proof. vm_compute. reflexivity. Qed.

Example hashOneShot_two_blocks :
  hex (hashOneShot (bytes_of_string
         "abcdbcdecdefdefgefghfghighijhijkijkljklmklmnlmnomnopnopq")) =
  "248d6a61d20638b8e5c026930c3e6039a33ce45964ff2167f6ecedd419db06c1".
Proof. vm_compute. reflexivity. Qed.

Example stream_abc_in_pieces :
  match update_all newStream
          [bytes_of_string "a"; []; bytes_of_string "bc"] with
  | Ok st => match finalize st with
             | Ok (d, _) => hex d
             | Err _ => ""
             end
  | Err _ => ""
  end = "ba7816bf8f01cfea414140de5dae2223b00361a396177a9cb410ff61f20015ad".
Proof. vm_compute. reflexivity. Qed.

(** A finalized state is consumed: neither [update] nor a second
    [finalize] is accepted. *)
Lemma finalize_consumes (st st' : HashState) (d : list Z) :
  finalize st = Ok (d, st') ->
  (forall chunk, update st' chunk = Err AlreadyFinalized) /\
  finalize st' = Err AlreadyFinalized.
Proof.
  unfold finalize, update. destruct (finalized st); [discriminate|].
  intros Heq. injection Heq as _ <-. cbn [finalized]. auto.
Qed.

Lemma length_process (n : nat) (h msg : list Z) :
  length h = 8%nat -> length (process n h msg) = 8%nat.
Proof.
  revert h msg. induction n as [|n IH]; intros h msg Hh; cbn [process].
  - exact Hh.
  - apply IH. reflexivity.
Qed.

Lemma length_digest_bytes (h : list Z) :
  length (digest_bytes h) = (4 * length h)%nat.
Proof.
  unfold digest_bytes. induction h as [|w h IH]; [reflexivity|].
  cbn [map concat]. rewrite length_app, IH. cbn [word_bytes length]. lia.
Qed.

(** The digest is always 32 bytes. *)
Lemma length_hashOneShot (data : list Z) : length (hashOneShot data) = 32%nat.
Proof.
  unfold hashOneShot.
  rewrite length_digest_bytes, length_process; reflexivity.
Qed.

(** C7: sha256 applied to the empty byte sequence returns the 32-byte
    digest whose hexadecimal encoding is the well-known SHA-256
    empty-string constant, 64 digits:
    e3b0c44298fc1c149afbf4c8996fb92427ae41e4649b934ca495991b7852b855. *)
Theorem sha256_empty :
  length (Facade.sha256 []) = 32%nat /\
  hex (Facade.sha256 []) =
  "e3b0c44298fc1c149afbf4c8996fb92427ae41e4649b934ca495991b7852b855".
Proof. split; vm_compute; reflexivity. Qed.

End Sha256Facts.

(* ===================================================================== *)
(** ** Properties of AES-GCM and the facade                              *)
(* ===================================================================== *)

Module GcmFacts.
Import Aes Gcm Facade.

Lemma length_AddRoundKey (s k : list Z) : length (AddRoundKey s k) = 16%nat.
Proof. unfold AddRoundKey. rewrite length_map, length_seq. reflexivity. Qed.

(** The block cipher returns a full block whatever it is given. *)
Lemma length_encryptBlock (rk : RoundKeys) (block : list Z) :
  length (encryptBlock rk block) = 16%nat.
Proof. unfold encryptBlock. apply length_AddRoundKey. Qed.

Lemma length_keystream (rk : RoundKeys) (nonce : list Z) (n : nat) (ctr : Z) :
  length (keystream rk nonce ctr n) = (16 * n)%nat.
Proof.
  revert ctr. induction n as [|n IH]; intros ctr; cbn [keystream].
  - reflexivity.
  - rewrite length_app, length_encryptBlock, IH. lia.
Qed.

Lemma block_count_covers (l : list Z) : (length l <= 16 * block_count l)%nat.
Proof.
  unfold block_count.
  pose proof (Nat.div_mod_eq (length l + 15) 16).
  pose proof (Nat.mod_upper_bound (length l + 15) 16 ltac:(lia)).
  lia.
Qed.

Lemma length_xor_bytes (a b : list Z) :
  length (xor_bytes a b) = Nat.min (length a) (length b).
Proof. unfold xor_bytes. apply length_zip_with. Qed.

(** Adding the same key stream twice gives the data back. *)
Lemma xor_bytes_twice (a b : list Z) :
  (length a <= length b)%nat -> xor_bytes (xor_bytes a b) b = a.
Proof.
  unfold xor_bytes. revert b.
  induction a as [|x a IH]; intros [|y b] Hlen; simpl in *; try reflexivity.
  - lia.
  - rewrite Z.lxor_assoc, Z.lxor_nilpotent, Z.lxor_0_r.
    f_equal. apply IH. lia.
Qed.

(** The ciphertext is as long as the plaintext. *)
Lemma length_ctr_crypt (rk : RoundKeys) (nonce data : list Z) :
  length (ctr_crypt rk nonce data) = length data.
Proof.
  unfold ctr_crypt. rewrite length_xor_bytes, length_keystream.
  pose proof (block_count_covers data). lia.
Qed.

Lemma ctr_crypt_twice (rk : RoundKeys) (nonce data : list Z) :
  ctr_crypt rk nonce (ctr_crypt rk nonce data) = data.
Proof.
  unfold ctr_crypt at 1.
  assert (Hn : block_count (ctr_crypt rk nonce data) = block_count data).
  { unfold block_count. rewrite length_ctr_crypt. reflexivity. }
  rewrite Hn. unfold ctr_crypt. apply xor_bytes_twice.
  rewrite length_keystream. apply block_count_covers.
Qed.

Lemma length_compute_tag (rk : RoundKeys) (nonce aad ct : list Z) :
  length (compute_tag rk nonce aad ct) = 16%nat.
Proof.
  unfold compute_tag. rewrite length_xor_bytes, length_encryptBlock.
  unfold bytes_of_block. rewrite length_map, length_seq. reflexivity.
Qed.

(** The accumulator of [ct_eq] ends at zero exactly when it started at
    zero and no position differs. *)
Lemma ct_eq_fold (a b : list Z) (acc : Z) :
  length a = length b ->
  fold_left (fun acc xy => Z.lor acc (Z.lxor (fst xy) (snd xy)))
            (combine a b) acc = 0
  <-> acc = 0 /\ a = b.
Proof.
  revert b acc. induction a as [|x a IH]; intros [|y b] acc Hlen;
    simpl in Hlen; try discriminate; cbn [combine fold_left fst snd].
  - tauto.
  - rewrite IH by lia. rewrite Z.lor_eq_0_iff, Z.lxor_eq_0_iff.
    split.
    + intros [[-> ->] ->]. auto.
    + intros [-> Heq]. injection Heq as -> ->. auto.
Qed.

(** [ct_eq] decides equality. *)
Lemma ct_eq_spec (a b : list Z) : ct_eq a b = true <-> a = b.
Proof.
  unfold ct_eq. rewrite andb_true_iff, Nat.eqb_eq, Z.eqb_eq. split.
  - intros [Hlen Hfold]. apply ct_eq_fold in Hfold; tauto.
  - intros ->. split; [reflexivity|]. apply ct_eq_fold; auto.
Qed.

(** C4: for every key of 16, 24 or 32 bytes, every 12-byte nonce, every
    plaintext and every associated data, encrypt succeeds, and decrypting
    the ciphertext and tag it returns under the same key, nonce and
    associated data succeeds with the original plaintext. *)
Theorem encrypt_decrypt_roundtrip (key nonce plaintext aad : list Z) :
  valid_key_length (length key) = true ->
  length nonce = 12%nat ->
  exists ciphertext tag : list Z,
    encrypt key nonce plaintext aad = Ok (ciphertext, tag) /\
    decrypt key nonce ciphertext tag aad = Ok plaintext.
Proof.
  intros Hkey Hnonce.
  exists (ctr_crypt (expandKey key) nonce plaintext).
  exists (compute_tag (expandKey key) nonce aad
            (ctr_crypt (expandKey key) nonce plaintext)).
  unfold encrypt, decrypt.
  rewrite Hkey, Hnonce, length_compute_tag. cbn [negb Nat.eqb].
  split; [reflexivity|].
  unfold gcm_decrypt.
  rewrite (proj2 (ct_eq_spec _ _) eq_refl).
  rewrite ctr_crypt_twice. reflexivity.
Qed.

(** C5: for every key, nonce, ciphertext, tag and associated data, if the
    supplied tag differs from the tag recomputed over the associated data
    and the ciphertext, then Decrypt of the authenticated mode fails with
    AuthenticationFailed, and decrypt of the facade returns an error,
    which carries no plaintext, not even part of one; that error is
    AuthenticationFailed as soon as the arguments have the lengths of
    their types (key 16, 24 or 32 bytes, nonce 12, tag 16), since lengths
    are validated first. So plaintext is returned only when the tag
    matches. *)
Theorem decrypt_authenticates (key nonce ciphertext tag aad : list Z) :
  tag <> compute_tag (expandKey key) nonce aad ciphertext ->
  gcm_decrypt (expandKey key) nonce ciphertext tag aad
    = Err AuthenticationFailed /\
  (forall plaintext : list Z,
     decrypt key nonce ciphertext tag aad <> Ok plaintext) /\
  (valid_key_length (length key) = true ->
   length nonce = 12%nat ->
   length tag = 16%nat ->
   decrypt key nonce ciphertext tag aad = Err AuthenticationFailed).
Proof.
  intros Hne.
  assert (Hgcm : gcm_decrypt (expandKey key) nonce ciphertext tag aad
                 = Err AuthenticationFailed).
  { unfold gcm_decrypt.
    destruct (ct_eq tag (compute_tag (expandKey key) nonce aad ciphertext))
      eqn:Heq; [|reflexivity].
    apply ct_eq_spec in Heq. contradiction. }
  split; [exact Hgcm|]. split.
  - intros plaintext. unfold decrypt. rewrite Hgcm.
    repeat match goal with |- context [if ?c then _ else _] => destruct c end;
      discriminate.
  - intros Hkey Hnonce Htag. unfold decrypt.
    rewrite Hkey, Hnonce, Htag. cbn [negb Nat.eqb]. exact Hgcm.
Qed.

(** The block cipher on the example vectors of FIPS 197 (appendix C), one
    per key size. *)
Example encryptBlock_aes128 :
  hex (encryptBlock (expandKey (unhex "000102030405060708090a0b0c0d0e0f"))
                    (unhex "00112233445566778899aabbccddeeff")) =
  "69c4e0d86a7b0430d8cdb78070b4c55a".
Proof. vm_compute. reflexivity. Qed.

Example encryptBlock_aes192 :
  hex (encryptBlock
         (expandKey (unhex "000102030405060708090a0b0c0d0e0f1011121314151617"))
         (unhex "00112233445566778899aabbccddeeff")) =
  "dda97ca4864cdfe06eaf70a0ec0d7191".
Proof. vm_compute. reflexivity. Qed.

Example encryptBlock_aes256 :
  hex (encryptBlock
         (expandKey (unhex
            "000102030405060708090a0b0c0d0e0f101112131415161718191a1b1c1d1e1f"))
         (unhex "00112233445566778899aabbccddeeff")) =
  "8ea2b7ca516745bfeafc49904b496089".
Proof. vm_compute. reflexivity. Qed.

(** The authenticated mode on the test cases of the GCM submission: empty
    plaintext, one zero block, and 60 bytes with associated data. *)
Example encrypt_gcm_case_1 :
  encrypt (replicate 16 0) (replicate 12 0) [] [] =
  Ok ([], unhex "58e2fccefa7e3061367f1d57a4e7455a").
Proof. vm_compute. reflexivity. Qed.

Example encrypt_gcm_case_2 :
  encrypt (replicate 16 0) (replicate 12 0) (replicate 16 0) [] =
  Ok (unhex "0388dace60b6a392f328c2b971b2fe78",
      unhex "ab6e47d42cec13bdf53a67b21257bddf").
Proof. vm_compute. reflexivity. Qed.

Example encrypt_gcm_case_4 :
  encrypt (unhex "feffe9928665731c6d6a8f9467308308")
          (unhex "cafebabefacedbaddecaf888")
          (unhex ("d9313225f88406e5a55909c5aff5269a86a7a9531534f7da" +:+
                  "2e4c303d8a318a721c3c0c95956809532fcf0e2449a6b525" +:+
                  "b16aedf5aa0de657ba637b39"))
          (unhex "feedfacedeadbeeffeedfacedeadbeefabaddad2") =
  Ok (unhex ("42831ec2217774244b7221b784d0d49ce3aa212f2c02a4e0" +:+
             "35c17e2329aca12e21d514b25466931c7d8f6a5aac84aa05" +:+
             "1ba30b396a0aac973d58e091"),
      unhex "5bc94fbc3221a5db94fae95ae7121a47").
Proof. vm_compute. reflexivity. Qed.

(** A wrong key, nonce or tag length is refused before any cipher work. *)
Example decrypt_refuses_bad_lengths :
  decrypt (replicate 15 0) (replicate 12 0) [] (replicate 16 0) [] =
    Err InvalidKeyLength /\
  decrypt (replicate 16 0) (replicate 8 0) [] (replicate 16 0) [] =
    Err InvalidNonceLength /\
  decrypt (replicate 16 0) (replicate 12 0) [] (replicate 12 0) [] =
    Err InvalidTagLength.
Proof. repeat split. Qed.

(** C4 on a 32-byte key, with plaintext and associated data. *)
Lemma encrypt_decrypt_roundtrip_witness :
  valid_key_length (length (replicate 32 7)) = true /\
  length (replicate 12 9) = 12%nat /\
  exists ciphertext tag : list Z,
    encrypt (replicate 32 7) (replicate 12 9) [1; 2; 3] [4; 5] =
      Ok (ciphertext, tag) /\
    decrypt (replicate 32 7) (replicate 12 9) ciphertext tag [4; 5] =
      Ok [1; 2; 3].
Proof.
  split; [reflexivity|]. split; [reflexivity|].
  apply (encrypt_decrypt_roundtrip (replicate 32 7) (replicate 12 9)
           [1; 2; 3] [4; 5]); reflexivity.
Defined.

(** C5 on the first GCM test case with its tag replaced by zeros. *)
Lemma decrypt_authenticates_witness :
  replicate 16 0 <>
    compute_tag (expandKey (replicate 16 0)) (replicate 12 0) [] [] /\
  decrypt (replicate 16 0) (replicate 12 0) [] (replicate 16 0) [] =
    Err AuthenticationFailed.
Proof.
  assert (Hne : replicate 16 0 <>
                compute_tag (expandKey (replicate 16 0)) (replicate 12 0) [] []).
  { vm_compute. discriminate. }
  split; [exact Hne|].
  apply (decrypt_authenticates (replicate 16 0) (replicate 12 0) []
           (replicate 16 0) [] Hne); reflexivity.
Defined.

End GcmFacts.

(* ===================================================================== *)
(** ** More on [main.cpp]: what the two functions do beyond the claims   *)
(* ===================================================================== *)

Module MainExtras.
Import Napi Main MainFacts.

(** The fields of the object a call returns, read through the returned
    value. *)
Lemma GetModuleInfo_result (b : Build) (info : CallbackInfo) (h : Heap) :
  exists l : loc,
    (GetModuleInfo b info h).1 = Ref l /\
    (l ∉ dom h) /\
    props_of (GetModuleInfo b info h).2 l = props (info_object b).
Proof.
  exists (fresh (dom h)). rewrite GetModuleInfo_props.
  rewrite GetModuleInfo_run. cbn [fst].
  split; [reflexivity|]. split; [apply is_fresh|reflexivity].
Qed.

(** X1: the two fields driven by [_WIN32] agree: the platform field reads
    "win32" exactly when the symbolVisibility field reads "dllexport". *)
Theorem platform_win32_iff_dllexport
    (b : Build) (info : CallbackInfo) (h : Heap) :
  exists l : loc,
    (GetModuleInfo b info h).1 = Ref l /\
    (props_of (GetModuleInfo b info h).2 l !! "platform" = Some (Str "win32")
     <->
     props_of (GetModuleInfo b info h).2 l !! "symbolVisibility"
       = Some (Str "dllexport")).
Proof.
  destruct (GetModuleInfo_result b info h) as (l & Hl & _ & Hp).
  exists l. split; [exact Hl|]. rewrite Hp.
  unfold info_object, mkObj, platform_string, visibility_string; cbn [props].
  simplify_map_eq.
  destruct (_WIN32 b), (__APPLE__ b), (__linux__ b);
    split; intros; congruence.
Qed.

(** X2: the platform field follows the order of the preprocessor chain:
    "win32" exactly on builds that define [_WIN32]; "darwin" exactly on
    builds that define [__APPLE__] and not [_WIN32]; "linux" exactly on
    builds that define [__linux__] and neither of the two; "unknown"
    exactly on builds that define none of the three. *)
Theorem platform_by_macros (b : Build) (info : CallbackInfo) (h : Heap) :
  exists (l : loc) (p : string),
    (GetModuleInfo b info h).1 = Ref l /\
    props_of (GetModuleInfo b info h).2 l !! "platform" = Some (Str p) /\
    (p = "win32" <-> _WIN32 b = true) /\
    (p = "darwin" <-> _WIN32 b = false /\ __APPLE__ b = true) /\
    (p = "linux" <->
       _WIN32 b = false /\ __APPLE__ b = false /\ __linux__ b = true) /\
    (p = "unknown" <->
       _WIN32 b = false /\ __APPLE__ b = false /\ __linux__ b = false).
Proof.
  destruct (GetModuleInfo_result b info h) as (l & Hl & _ & Hp).
  exists l, (platform_string b). split; [exact Hl|]. rewrite Hp.
  split; [unfold info_object, mkObj; cbn [props]; by simplify_map_eq|].
  unfold platform_string.
  destruct (_WIN32 b), (__APPLE__ b), (__linux__ b);
    repeat split; intros; try congruence; intuition congruence.
Qed.

(** X3: the arch field follows the order of its chain, the MSVC macros
    first: "x64" exactly when [_M_X64] is defined, or [__x86_64__] is and
    [_M_IX86] is not; "ia32" exactly when [_M_IX86] is defined and
    [_M_X64] is not; "arm64" exactly when [__aarch64__] is defined and
    none of the three x86 macros; "unknown" exactly when none of the four
    macros is defined. *)
Theorem arch_by_macros (b : Build) (info : CallbackInfo) (h : Heap) :
  exists (l : loc) (a : string),
    (GetModuleInfo b info h).1 = Ref l /\
    props_of (GetModuleInfo b info h).2 l !! "arch" = Some (Str a) /\
    (a = "x64" <->
       _M_X64 b = true \/ (_M_IX86 b = false /\ __x86_64__ b = true)) /\
    (a = "ia32" <-> _M_X64 b = false /\ _M_IX86 b = true) /\
    (a = "arm64" <->
       _M_X64 b = false /\ _M_IX86 b = false /\ __x86_64__ b = false /\
       __aarch64__ b = true) /\
    (a = "unknown" <->
       _M_X64 b = false /\ _M_IX86 b = false /\ __x86_64__ b = false /\
       __aarch64__ b = false).
Proof.
  destruct (GetModuleInfo_result b info h) as (l & Hl & _ & Hp).
  exists l, (arch_string b). split; [exact Hl|]. rewrite Hp.
  split; [unfold info_object, mkObj; cbn [props]; by simplify_map_eq|].
  unfold arch_string.
  destruct (_M_X64 b), (_M_IX86 b), (__x86_64__ b), (__aarch64__ b);
    repeat split; intros; try congruence; intuition congruence.
Qed.

(** X4: the buildDate and buildTime fields are the compiler's [__DATE__]
    and [__TIME__] strings of the build, unchanged, and they are the only
    fields a rebuild can change: two builds that agree on the seven tested
    macros return objects that agree on every other field. *)
Theorem build_stamp_fields
    (b1 b2 : Build) (info1 info2 : CallbackInfo) (h1 h2 : Heap) :
  _WIN32 b1 = _WIN32 b2 ->
  __APPLE__ b1 = __APPLE__ b2 ->
  __linux__ b1 = __linux__ b2 ->
  _M_X64 b1 = _M_X64 b2 ->
  _M_IX86 b1 = _M_IX86 b2 ->
  __x86_64__ b1 = __x86_64__ b2 ->
  __aarch64__ b1 = __aarch64__ b2 ->
  exists l1 l2 : loc,
    (GetModuleInfo b1 info1 h1).1 = Ref l1 /\
    (GetModuleInfo b2 info2 h2).1 = Ref l2 /\
    props_of (GetModuleInfo b1 info1 h1).2 l1 !! "buildDate"
      = Some (Str (__DATE__ b1)) /\
    props_of (GetModuleInfo b1 info1 h1).2 l1 !! "buildTime"
      = Some (Str (__TIME__ b1)) /\
    (forall k : string, k ≠ "buildDate" -> k ≠ "buildTime" ->
       props_of (GetModuleInfo b1 info1 h1).2 l1 !! k =
       props_of (GetModuleInfo b2 info2 h2).2 l2 !! k).
Proof.
  intros W A L X I G R.
  destruct (GetModuleInfo_result b1 info1 h1) as (l1 & Hl1 & _ & Hp1).
  destruct (GetModuleInfo_result b2 info2 h2) as (l2 & Hl2 & _ & Hp2).
  exists l1, l2. split; [exact Hl1|]. split; [exact Hl2|].
  rewrite Hp1, Hp2.
  unfold info_object, mkObj, platform_string, arch_string, visibility_string;
    cbn [props].
  rewrite W, A, L, X, I, G, R.
  split; [by simplify_map_eq|]. split; [by simplify_map_eq|].
  intros k Hd Ht.
  rewrite !lookup_insert. repeat case_decide; congruence.
Qed.

(** X4 on two builds for 64-bit Linux made at different times. *)
Lemma build_stamp_fields_witness :
  let b1 := mkBuild false false true false false true false
                    "Jan  1 2025" "00:00:00" in
  let b2 := mkBuild false false true false false true false
                    "Feb  2 2026" "12:34:56" in
  let info := mkInfo (mkEnv 0) Undefined [] in
  exists l1 l2 : loc,
    (GetModuleInfo b1 info ∅).1 = Ref l1 /\
    (GetModuleInfo b2 info ∅).1 = Ref l2 /\
    props_of (GetModuleInfo b1 info ∅).2 l1 !! "buildDate"
      = Some (Str "Jan  1 2025") /\
    props_of (GetModuleInfo b1 info ∅).2 l1 !! "buildTime"
      = Some (Str "00:00:00") /\
    (forall k : string, k ≠ "buildDate" -> k ≠ "buildTime" ->
       props_of (GetModuleInfo b1 info ∅).2 l1 !! k =
       props_of (GetModuleInfo b2 info ∅).2 l2 !! k).
Proof.
  apply (build_stamp_fields
           (mkBuild false false true false false true false
                    "Jan  1 2025" "00:00:00")
           (mkBuild false false true false false true false
                    "Feb  2 2026" "12:34:56")
           (mkInfo (mkEnv 0) Undefined []) (mkInfo (mkEnv 0) Undefined [])
           ∅ ∅); reflexivity.
Defined.


(** X6: on an exports object on which no assignment runs a setter,
    [Initialize] writes to the exports object only: every other object of
    the store is left as it was, the exports object keeps what it is (its
    callback if it is a function object, its extensible flag, its
    read-only and accessor properties, its prototype), and no object is
    removed from the store. *)
Theorem Initialize_store_frame
    (env : Env) (exports : loc) (h : Heap) (o : Obj) :
  h !! exports = Some o ->
  setter_free o = true ->
  let h' := (Initialize env exports h).2 in
  (forall l, l ∈ dom h -> l ≠ exports -> h' !! l = h !! l) /\
  (exists o', h' !! exports = Some o' /\ same_attributes o o') /\
  dom h ⊆ dom h'.
Proof.
  intros He Hfree.
  destruct (Initialize_run env exports h o He Hfree)
    as (l1 & l2 & l3 & l4 & h' & o' & R & E & A & _ & _ & _ & _ & _
        & _ & _ & _ & _ & Fr & _ & _ & D).
  rewrite R. cbn [snd].
  split; [exact Fr|]. split; [eauto|]. exact D.
Qed.

(** X7: on a writable exports object, the four entry points are bound to
    four different function objects, all created by the call: none of
    them is the exports object or any object the store held before. *)
Theorem Initialize_functions_distinct
    (env : Env) (exports : loc) (h : Heap) (o : Obj) :
  h !! exports = Some o ->
  writable_exports o = true ->
  let h' := (Initialize env exports h).2 in
  exists l1 l2 l3 l4 : loc,
    props_of h' exports !! "aesEncrypt" = Some (Ref l1) /\
    props_of h' exports !! "aesDecrypt" = Some (Ref l2) /\
    props_of h' exports !! "sha256" = Some (Ref l3) /\
    props_of h' exports !! "getModuleInfo" = Some (Ref l4) /\
    NoDup [l1; l2; l3; l4] /\
    (forall l, l ∈ [l1; l2; l3; l4] -> l ≠ exports /\ l ∉ dom h).
Proof.
  intros He Hw.
  destruct (writable_exports_spec o Hw) as (Hfree & W1 & W2 & W3 & W4).
  destruct (Initialize_run env exports h o He Hfree)
    as (l1 & l2 & l3 & l4 & h' & o' & R & E & _ & _
        & B1 & B2 & B3 & B4 & _ & _ & _ & _ & _ & Nd & New & _).
  rewrite R. cbn [snd]. exists l1, l2, l3, l4.
  unfold props_of. rewrite E.
  split; [auto|]. split; [auto|]. split; [auto|]. split; [auto|].
  split; [exact Nd|].
  intros l Hl. split; [|apply New; exact Hl].
  intros ->. apply (New exports Hl). apply elem_of_dom. eauto.
Qed.

(** X8: on a writable exports object that has no properties yet, data
    or accessor, the exports object ends with exactly the four entry
    points as its properties, and every one of them is a function object
    behind one of the native callbacks. *)
Theorem Initialize_on_empty_exports
    (env : Env) (exports : loc) (h : Heap) (o : Obj) :
  h !! exports = Some o ->
  writable_exports o = true ->
  props o = ∅ ->
  accessors o = ∅ ->
  let h' := (Initialize env exports h).2 in
  accessors <$> h' !! exports = Some ∅ /\
  dom (props_of h' exports) = entry_points /\
  size (props_of h' exports) = 4%nat /\
  (forall k v, props_of h' exports !! k = Some v ->
               exists cb, is_function h' v cb).
Proof.
  intros He Hw Hempty Hnoacc.
  destruct (writable_exports_spec o Hw) as (Hfree & W1 & W2 & W3 & W4).
  destruct (Initialize_run env exports h o He Hfree)
    as (l1 & l2 & l3 & l4 & h' & o' & R & E & A & Hother
        & B1 & B2 & B3 & B4 & G1 & G2 & G3 & G4 & _).
  specialize (B1 W1). specialize (B2 W2).
  specialize (B3 W3). specialize (B4 W4).
  rewrite R. cbn [snd]. unfold props_of. rewrite E.
  destruct A as (_ & _ & _ & Hacc & _).
  split; [cbn; rewrite Hacc, Hnoacc; reflexivity|].
  assert (Hcases : forall k v, props o' !! k = Some v ->
            (k = "aesEncrypt" /\ v = Ref l1) \/ (k = "aesDecrypt" /\ v = Ref l2)
            \/ (k = "sha256" /\ v = Ref l3)
            \/ (k = "getModuleInfo" /\ v = Ref l4)).
  { intros k v Hk.
    destruct (decide (k ∈ entry_points)) as [Hin|Hout].
    - unfold entry_points in Hin.
      rewrite !elem_of_union, !elem_of_singleton in Hin.
      destruct Hin as [[[-> | ->] | ->] | ->].
      + left. split; [reflexivity|congruence].
      + right; left. split; [reflexivity|congruence].
      + right; right; left. split; [reflexivity|congruence].
      + right; right; right. split; [reflexivity|congruence].
    - rewrite (Hother k Hout), Hempty, lookup_empty in Hk. discriminate. }
  assert (Hdom : dom (props o') = entry_points).
  { apply set_eq. intros x. rewrite elem_of_dom. unfold entry_points.
    rewrite !elem_of_union, !elem_of_singleton. split.
    - intros [v Hv].
      destruct (Hcases x v Hv) as [[-> _]|[[-> _]|[[-> _]|[-> _]]]]; auto.
    - intros [[[-> | ->] | ->] | ->]; eauto. }
  split; [exact Hdom|]. split.
  - rewrite <- size_dom, Hdom. reflexivity.
  - intros k v Hk.
    destruct (Hcases k v Hk) as [[_ ->]|[[_ ->]|[[_ ->]|[_ ->]]]]; eauto.
Qed.

(** X9: registering twice. On a writable exports object, a second
    [Initialize] again returns that object and leaves it with the same
    names; each entry point is rebound to a new function object for the
    same native callback, and the function object of the first run stays
    in the store as it was. *)
Theorem Initialize_twice
    (env : Env) (exports : loc) (h : Heap) (o : Obj) :
  h !! exports = Some o ->
  writable_exports o = true ->
  let h1 := (Initialize env exports h).2 in
  let h2 := (Initialize env exports h1).2 in
  (Initialize env exports h1).1 = exports /\
  dom (props_of h2 exports) = dom (props_of h1 exports) /\
  (forall k : string, k ∈ entry_points ->
     exists (la lb : loc) (cb : Callback),
       props_of h1 exports !! k = Some (Ref la) /\
       props_of h2 exports !! k = Some (Ref lb) /\
       la ≠ lb /\
       is_function h1 (Ref la) cb /\
       h2 !! la = h1 !! la /\
       is_function h2 (Ref lb) cb).
Proof.
  intros He Hw.
  destruct (writable_exports_spec o Hw) as (Hfree & W1 & W2 & W3 & W4).
  destruct (Initialize_run env exports h o He Hfree)
    as (l1 & l2 & l3 & l4 & h1 & o1 & R1 & E1 & A1 & _
        & B1 & B2 & B3 & B4 & G1 & G2 & G3 & G4 & _ & _ & New1 & _).
  specialize (B1 W1). specialize (B2 W2).
  specialize (B3 W3). specialize (B4 W4).
  rewrite R1. cbn [snd].
  assert (Hw1 : writable_exports o1 = true).
  { unfold writable_exports in *.
    rewrite !(same_attributes_accepts o o1) by exact A1.
    destruct A1 as (_ & _ & _ & _ & ->). exact Hw. }
  destruct (writable_exports_spec o1 Hw1) as (Hfree1 & V1 & V2 & V3 & V4).
  destruct (Initialize_run env exports h1 o1 E1 Hfree1)
    as (m1 & m2 & m3 & m4 & h2 & o2 & R2 & E2 & _ & Hother
        & C1 & C2 & C3 & C4 & J1 & J2 & J3 & J4 & Fr2 & _ & New2 & _).
  specialize (C1 V1). specialize (C2 V2).
  specialize (C3 V3). specialize (C4 V4).
  rewrite R2. cbn [fst snd].
  assert (Ie : exports ∈ dom h) by (apply elem_of_dom; eauto).
  assert (Hold : forall l cb, l ∈ [l1; l2; l3; l4] ->
                 is_function h1 (Ref l) cb ->
                 h2 !! l = h1 !! l /\
                 forall m, m ∈ [m1; m2; m3; m4] -> l ≠ m).
  { intros l cb Hl (l' & ob & Heq & Hob & _). injection Heq as <-. split.
    - apply Fr2; [apply elem_of_dom; eauto|].
      intros ->. apply (New1 exports Hl). exact Ie.
    - intros m Hm ->. apply (New2 m Hm). apply elem_of_dom. eauto. }
  split; [reflexivity|].
  unfold props_of. rewrite E1, E2.
  split.
  { apply set_eq. intros x. rewrite !elem_of_dom.
    destruct (decide (x ∈ entry_points)) as [Hin|Hout].
    - unfold entry_points in Hin.
      rewrite !elem_of_union, !elem_of_singleton in Hin.
      destruct Hin as [[[-> | ->] | ->] | ->]; split; eauto.
    - rewrite (Hother x Hout). tauto. }
  intros k Hk. unfold entry_points in Hk.
  rewrite !elem_of_union, !elem_of_singleton in Hk.
  destruct Hk as [[[-> | ->] | ->] | ->].
  - destruct (Hold l1 _ ltac:(rewrite !elem_of_cons; auto) G1) as [K1 K2].
    exists l1, m1, Napi.AesEncrypt.
    repeat split; auto. apply K2. rewrite !elem_of_cons; auto.
  - destruct (Hold l2 _ ltac:(rewrite !elem_of_cons; auto) G2) as [K1 K2].
    exists l2, m2, Napi.AesDecrypt.
    repeat split; auto. apply K2. rewrite !elem_of_cons; auto.
  - destruct (Hold l3 _ ltac:(rewrite !elem_of_cons; auto) G3) as [K1 K2].
    exists l3, m3, Napi.Sha256Hash.
    repeat split; auto. apply K2. rewrite !elem_of_cons; auto.
  - destruct (Hold l4 _ ltac:(rewrite !elem_of_cons; auto) G4) as [K1 K2].
    exists l4, m4, Napi.GetModuleInfo.
    repeat split; auto. apply K2. rewrite !elem_of_cons; auto.
Qed.

(** X10: a call of [GetModuleInfo] after [Initialize] does not disturb the
    registrations: the object it returns is a new one, not the exports
    object and not a registered function; the exports object is as
    [Initialize] left it, and every function object of the store is still
    the same function. *)
Theorem GetModuleInfo_after_Initialize
    (b : Build) (env : Env) (info : CallbackInfo)
    (exports : loc) (h : Heap) (o : Obj) :
  h !! exports = Some o ->
  let h1 := (Initialize env exports h).2 in
  let h2 := (GetModuleInfo b info h1).2 in
  exists l : loc,
    (GetModuleInfo b info h1).1 = Ref l /\
    l ≠ exports /\
    h2 !! exports = h1 !! exports /\
    (forall (f : Value) (cb : Callback),
       is_function h1 f cb -> is_function h2 f cb /\ f ≠ Ref l) /\
    (forall cb : Callback, ~ is_function h2 (Ref l) cb).
Proof.
  intros He. cbn zeta.
  assert (Ie : exports ∈ dom (Initialize env exports h).2).
  { apply keeps_objects_Initialize. apply elem_of_dom. eauto. }
  set (h1 := (Initialize env exports h).2) in *.
  rewrite GetModuleInfo_run. cbn [fst snd].
  pose proof (is_fresh (dom h1)) as Hfresh.
  set (l := fresh (dom h1)) in *.
  assert (Hne : l ≠ exports).
  { intros Heq. apply Hfresh. rewrite Heq. exact Ie. }
  exists l. split; [reflexivity|]. split; [exact Hne|].
  split; [apply lookup_insert_ne; exact Hne|]. split.
  - intros f cb (lf & ob & -> & Hob & Hcb).
    assert (l ≠ lf).
    { intros Heq. apply Hfresh. rewrite Heq. apply elem_of_dom. eauto. }
    split; [|congruence].
    exists lf, ob. rewrite lookup_insert_ne by assumption. auto.
  - intros cb (lf & ob & Heq & Hob & Hcb).
    injection Heq as <-. rewrite lookup_insert_eq in Hob.
    injection Hob as <-. discriminate Hcb.
Qed.

(** The extras with a precondition, each on a concrete store. X6 on a
    frozen exports object with a setter-less accessor, beside another
    object; the others on an exports object without properties. *)
Lemma Initialize_store_frame_witness :
  let o := MkObj ∅ None false ∅ (<["sha256" := None]> ∅) None in
  let h : Heap := <[1%positive := o]> (<[2%positive := mkObj ∅ None]> ∅) in
  h !! 1%positive = Some o /\
  setter_free o = true /\
  (forall l, l ∈ dom h -> l ≠ 1%positive ->
     (Initialize (mkEnv 0) 1%positive h).2 !! l = h !! l).
Proof.
  split; [reflexivity|]. split; [vm_compute; reflexivity|].
  apply (Initialize_store_frame (mkEnv 0) 1%positive
           (<[1%positive := MkObj ∅ None false ∅ (<["sha256" := None]> ∅) None]>
              (<[2%positive := mkObj ∅ None]> ∅))
           (MkObj ∅ None false ∅ (<["sha256" := None]> ∅) None)).
  - reflexivity.
  - vm_compute; reflexivity.
Defined.

Lemma Initialize_functions_distinct_witness :
  let o := mkObj ∅ None in
  let h : Heap := <[1%positive := o]> ∅ in
  h !! 1%positive = Some o /\
  writable_exports o = true /\
  exists l1 l2 l3 l4 : loc,
    props_of (Initialize (mkEnv 0) 1%positive h).2 1%positive !! "aesEncrypt"
      = Some (Ref l1) /\
    props_of (Initialize (mkEnv 0) 1%positive h).2 1%positive !! "aesDecrypt"
      = Some (Ref l2) /\
    props_of (Initialize (mkEnv 0) 1%positive h).2 1%positive !! "sha256"
      = Some (Ref l3) /\
    props_of (Initialize (mkEnv 0) 1%positive h).2 1%positive !! "getModuleInfo"
      = Some (Ref l4) /\
    NoDup [l1; l2; l3; l4] /\
    (forall l, l ∈ [l1; l2; l3; l4] -> l ≠ 1%positive /\ l ∉ dom h).
Proof.
  split; [reflexivity|]. split; [vm_compute; reflexivity|].
  apply (Initialize_functions_distinct (mkEnv 0) 1%positive
           (<[1%positive := mkObj ∅ None]> ∅) (mkObj ∅ None)).
  - reflexivity.
  - vm_compute; reflexivity.
Defined.

Lemma Initialize_on_empty_exports_witness :
  let o := mkObj ∅ None in
  let h : Heap := <[1%positive := o]> ∅ in
  h !! 1%positive = Some o /\ writable_exports o = true /\ props o = ∅ /\
  accessors o = ∅ /\
  size (props_of (Initialize (mkEnv 0) 1%positive h).2 1%positive) = 4%nat.
Proof.
  split; [reflexivity|]. split; [vm_compute; reflexivity|].
  split; [reflexivity|]. split; [reflexivity|].
  apply (Initialize_on_empty_exports (mkEnv 0) 1%positive
           (<[1%positive := mkObj ∅ None]> ∅) (mkObj ∅ None)).
  - reflexivity.
  - vm_compute; reflexivity.
  - reflexivity.
  - reflexivity.
Defined.

Lemma Initialize_twice_witness :
  let o := mkObj ∅ None in
  let h : Heap := <[1%positive := o]> ∅ in
  h !! 1%positive = Some o /\
  writable_exports o = true /\
  dom (props_of (Initialize (mkEnv 0) 1%positive
                   (Initialize (mkEnv 0) 1%positive h).2).2 1%positive) =
  dom (props_of (Initialize (mkEnv 0) 1%positive h).2 1%positive).
Proof.
  split; [reflexivity|]. split; [vm_compute; reflexivity|].
  apply (Initialize_twice (mkEnv 0) 1%positive
           (<[1%positive := mkObj ∅ None]> ∅) (mkObj ∅ None)).
  - reflexivity.
  - vm_compute; reflexivity.
Defined.

Lemma GetModuleInfo_after_Initialize_witness :
  let o := mkObj ∅ None in
  let h : Heap := <[1%positive := o]> ∅ in
  let b := mkBuild false false true false false true false
                   "Jan  1 2025" "00:00:00" in
  let h1 := (Initialize (mkEnv 0) 1%positive h).2 in
  h !! 1%positive = Some o /\
  exists l : loc,
    (GetModuleInfo b (mkInfo (mkEnv 0) Undefined []) h1).1 = Ref l /\
    l ≠ 1%positive /\
    (GetModuleInfo b (mkInfo (mkEnv 0) Undefined []) h1).2 !! 1%positive
      = h1 !! 1%positive /\
    (forall (f : Value) (cb : Callback),
       is_function h1 f cb ->
       is_function (GetModuleInfo b (mkInfo (mkEnv 0) Undefined []) h1).2 f cb
       /\ f ≠ Ref l) /\
    (forall cb : Callback,
       ~ is_function (GetModuleInfo b (mkInfo (mkEnv 0) Undefined []) h1).2
           (Ref l) cb).
Proof.
  split; [reflexivity|].
  apply (GetModuleInfo_after_Initialize
           (mkBuild false false true false false true false
                    "Jan  1 2025" "00:00:00")
           (mkEnv 0) (mkInfo (mkEnv 0) Undefined []) 1%positive
           (<[1%positive := mkObj ∅ None]> ∅) (mkObj ∅ None)).
  reflexivity.
Defined.

End MainExtras.
